(** * Vectorized virtual calls recorded through a jump table

    A shallow embedding of [enoki/vcall.h] (namespace [enoki::detail]):
    [collect_indices], [write_indices], [vcall_jit_record_impl] and
    [vcall_jit_record], together with the properties of the recording
    algorithm that the specification states about them. *)

From Stdlib Require Import ZArith NArith Lia.
From stdpp Require Import base list strings.

Set Default Proof Using "Type".
Set Warnings "-register-all".
Local Open Scope nat_scope.

(** ** Values and their static structure *)

(** The C++ templates dispatch on the static type of a value
    ([array_depth_v], [is_diff_array_v], [is_jit_array_v],
    [is_enoki_struct_v]).  [shape] is that static type; [TNullptr] is
    [std::nullptr_t], the marker of a call without return value. *)
Inductive shape : Type :=
| TNested (n : nat) (entry : shape)   (* array_depth_v<T> > 1, [n] entries *)
| TDiff (detached : shape)            (* is_diff_array_v<T> *)
| TJit                                (* is_jit_array_v<T> *)
| TStruct (fields : list shape)       (* is_enoki_struct_v<T> *)
| TOther                              (* anything else: contributes nothing *)
| TNullptr.                           (* std::nullptr_t *)

(** A value of such a type.  A JIT array is the [uint32_t] reference of its
    trace variable, [0] being the reserved "uninitialized" reference. *)
Inductive value : Type :=
| VNested (entries : list value)
| VDiff (detached : value)
| VJit (index : N)
| VStruct (fields : list value)
| VOther
| VNullptr.

Section shape_ind.
Variable P : shape → Prop.
Hypothesis Hnested : ∀ n e, P e → P (TNested n e).
Hypothesis Hdiff : ∀ t, P t → P (TDiff t).
Hypothesis Hjit : P TJit.
Hypothesis Hstruct : ∀ fs, Forall P fs → P (TStruct fs).
Hypothesis Hother : P TOther.
Hypothesis Hnull : P TNullptr.

Fixpoint shape_ind' (t : shape) : P t :=
  match t with
  | TNested n e => Hnested n e (shape_ind' e)
  | TDiff d => Hdiff d (shape_ind' d)
  | TJit => Hjit
  | TStruct fs =>
      Hstruct fs ((fix go (l : list shape) : Forall P l :=
                     match l with
                     | [] => Forall_nil_2 P
                     | x :: l' => Forall_cons_2 P x l' (shape_ind' x) (go l')
                     end) fs)
  | TOther => Hother
  | TNullptr => Hnull
  end.
End shape_ind.

Section value_ind.
Variable P : value → Prop.
Hypothesis Hnested : ∀ es, Forall P es → P (VNested es).
Hypothesis Hdiff : ∀ v, P v → P (VDiff v).
Hypothesis Hjit : ∀ i, P (VJit i).
Hypothesis Hstruct : ∀ fs, Forall P fs → P (VStruct fs).
Hypothesis Hother : P VOther.
Hypothesis Hnull : P VNullptr.

Fixpoint value_ind' (v : value) : P v :=
  match v with
  | VNested es =>
      Hnested es ((fix go (l : list value) : Forall P l :=
                     match l with
                     | [] => Forall_nil_2 P
                     | x :: l' => Forall_cons_2 P x l' (value_ind' x) (go l')
                     end) es)
  | VDiff d => Hdiff d (value_ind' d)
  | VJit i => Hjit i
  | VStruct fs =>
      Hstruct fs ((fix go (l : list value) : Forall P l :=
                     match l with
                     | [] => Forall_nil_2 P
                     | x :: l' => Forall_cons_2 P x l' (value_ind' x) (go l')
                     end) fs)
  | VOther => Hother
  | VNullptr => Hnull
  end.
End value_ind.

(** ** Outcomes of a C++ computation *)

Inductive exn : Type :=
| UninitializedArgument      (* the [enoki_raise] of [collect_indices] *)
| Exception (code : Z).      (* any other exception, e.g. of a callback *)

(** [Undef] stands for undefined behaviour (an access out of the bounds of a
    vector, a division by zero): no handler catches it. *)
Inductive outcome (A : Type) : Type :=
| Ok (a : A)
| Throw (e : exn)
| Undef.
Arguments Ok {A} a.
Arguments Throw {A} e.
Arguments Undef {A}.

(** ** Index collector *)

(** [collect_indices(indices, value)]: the accumulator is passed and
    returned; [push_back] appends at the end. *)
Fixpoint collect_indices (indices : list N) (v : value) : outcome (list N) :=
  match v with
  | VNested entries =>
      (fix entries_loop (indices : list N) (es : list value) : outcome (list N) :=
         match es with
         | [] => Ok indices
         | e :: es' =>
             match collect_indices indices e with
             | Ok indices' => entries_loop indices' es'
             | r => r
             end
         end) indices entries
  | VDiff detached => collect_indices indices detached
  | VJit index =>
      if (index =? 0)%N then Throw UninitializedArgument
      else Ok (indices ++ [index])
  | VStruct fields =>
      (fix apply_1 (indices : list N) (fs : list value) : outcome (list N) :=
         match fs with
         | [] => Ok indices
         | f :: fs' =>
             match collect_indices indices f with
             | Ok indices' => apply_1 indices' fs'
             | r => r
             end
         end) indices fields
  | VOther | VNullptr => Ok indices
  end.

(** The fold [(collect_indices(indices_in, args), ...)] over an argument pack,
    left to right; it is also the loop over the entries of a nested array and
    over the fields of a structure. *)
Fixpoint collect_indices_pack (indices : list N) (vs : list value) : outcome (list N) :=
  match vs with
  | [] => Ok indices
  | v :: vs' =>
      match collect_indices indices v with
      | Ok indices' => collect_indices_pack indices' vs'
      | r => r
      end
  end.

(** ** Index writer *)

(** [write_indices(indices, value, offset)] returns the updated value and
    offset; [None] is the read [indices[offset]] past the end of the vector.
    The offset is a [uint32_t] in the source, a natural number here. *)
Fixpoint write_indices (indices : list N) (v : value) (offset : nat)
  : option (value * nat) :=
  match v with
  | VNested entries =>
      match
        (fix entries_loop (es : list value) (offset : nat) : option (list value * nat) :=
           match es with
           | [] => Some ([], offset)
           | e :: es' =>
               match write_indices indices e offset with
               | Some (e', offset') =>
                   match entries_loop es' offset' with
                   | Some (es'', offset'') => Some (e' :: es'', offset'')
                   | None => None
                   end
               | None => None
               end
           end) entries offset
      with
      | Some (es, offset') => Some (VNested es, offset')
      | None => None
      end
  | VDiff detached =>
      match write_indices indices detached offset with
      | Some (d, offset') => Some (VDiff d, offset')
      | None => None
      end
  | VJit _ =>
      match indices !! offset with
      | Some index => Some (VJit index, S offset)     (* T::steal(indices[offset++]) *)
      | None => None
      end
  | VStruct fields =>
      match
        (fix apply_1 (fs : list value) (offset : nat) : option (list value * nat) :=
           match fs with
           | [] => Some ([], offset)
           | f :: fs' =>
               match write_indices indices f offset with
               | Some (f', offset') =>
                   match apply_1 fs' offset' with
                   | Some (fs'', offset'') => Some (f' :: fs'', offset'')
                   | None => None
                   end
               | None => None
               end
           end) fields offset
      with
      | Some (fs, offset') => Some (VStruct fs, offset')
      | None => None
      end
  | VOther => Some (VOther, offset)
  | VNullptr => Some (VNullptr, offset)
  end.

(** The loop of [write_indices] over the entries of a nested array, the
    fields of a structure, or a pack of values. *)
Definition write_indices_pack (indices : list N)
  : list value → nat → option (list value * nat) :=
  fix pack (vs : list value) (offset : nat) : option (list value * nat) :=
    match vs with
    | [] => Some ([], offset)
    | v :: vs' =>
        match write_indices indices v offset with
        | Some (v', offset') =>
            match pack vs' offset' with
            | Some (vs'', offset'') => Some (v' :: vs'', offset'')
            | None => None
            end
        | None => None
        end
    end.

(** ** Structure of a value, default construction *)

(** [has_shape v t]: [v] is a value of the static type [t]. *)
Fixpoint has_shape (v : value) (t : shape) : bool :=
  match v, t with
  | VNested es, TNested n e =>
      (length es =? n) && forallb (λ x, has_shape x e) es
  | VDiff d, TDiff t' => has_shape d t'
  | VJit _, TJit => true
  | VStruct fs, TStruct ts =>
      (fix fields (fs : list value) (ts : list shape) : bool :=
         match fs, ts with
         | [], [] => true
         | f :: fs', t' :: ts' => has_shape f t' && fields fs' ts'
         | _, _ => false
         end) fs ts
  | VOther, TOther => true
  | VNullptr, TNullptr => true
  | _, _ => false
  end.

(** [Result result;]: every JIT array of a default-constructed value holds
    the reference [0]. *)
Fixpoint default_value (t : shape) : value :=
  match t with
  | TNested n e => VNested (replicate n (default_value e))
  | TDiff d => VDiff (default_value d)
  | TJit => VJit 0
  | TStruct fs => VStruct (map default_value fs)
  | TOther => VOther
  | TNullptr => VNullptr
  end.

(** The same value with every reference reset to [0]: a freshly
    zero-initialized value of the same structure. *)
Fixpoint clear_indices (v : value) : value :=
  match v with
  | VNested es => VNested (map clear_indices es)
  | VDiff d => VDiff (clear_indices d)
  | VJit _ => VJit 0
  | VStruct fs => VStruct (map clear_indices fs)
  | VOther => VOther
  | VNullptr => VNullptr
  end.

(** The references of the trace-backed leaves, in traversal order. *)
Fixpoint leaves (v : value) : list N :=
  match v with
  | VNested es => concat (map leaves es)
  | VDiff d => leaves d
  | VJit i => [i]
  | VStruct fs => concat (map leaves fs)
  | VOther | VNullptr => []
  end.

Definition leaves_pack (vs : list value) : list N := concat (map leaves vs).

(** Number of trace-backed leaves of a static type. *)
Fixpoint leaf_count (t : shape) : nat :=
  match t with
  | TNested n e => n * leaf_count e
  | TDiff d => leaf_count d
  | TJit => 1
  | TStruct fs => list_sum (map leaf_count fs)
  | TOther | TNullptr => 0
  end.

(** ** The JIT backend *)

Inductive JitBackend : Type := CUDA | LLVM.

(** The one flag of the backend the recorder reads and sets. *)
Inductive JitFlag : Type := PostponeSideEffects.

(** The two labels the recorder formats with [snprintf]:
    ["VCall: %s::%s() [instance %u]"] and ["%s::%s()"], kept as their
    arguments. *)
Inductive label : Type :=
| InstanceLabel (domain name : string) (j : nat)
| CallLabel (domain name : string).

(** The arguments of one call of [jit_var_vcall]: a jump-table node. *)
Record vcall_node : Type := VCallNode {
  vc_label : label;
  vc_self : N;
  vc_n_inst : nat;
  vc_indices_in : list N;
  vc_indices_out_all : list N;
  vc_se_count : list nat;
  vc_indices_out : list N     (* the output buffer as handed over *)
}.

(** Modelled from the spec: the backend (enoki-jit) is not part of the
    sources.  The spec lists what it owns: the trace variables, the
    diagnostic-prefix stack, the "postpone side effects" flag, the mask
    stack, the log of scheduled side effects and the jump-table nodes.  A
    trace variable is kept as the lane data it denotes; the variable with
    reference [r ≥ 1] is entry [r - 1] of [js_vars]. *)
Record jit_state : Type := JitState {
  js_vars : list (list Z);
  js_prefix : list label;
  js_postpone : Z;
  js_masks : list N;
  js_side_effects : list N;
  js_vcalls : list vcall_node
}.

(** Modelled from the spec: the instance registry is not part of the
    sources.  It maps the ids [1..max_id] of one domain to the pointers of
    the live implementations, with gaps: entry [i - 1] is the pointer
    registered under id [i], [0] being [nullptr].  Ids, counts and loop
    counters are [uint32_t] in the source; the registry is taken to hold
    fewer than [2^32 - 1] ids and a value fewer than [2^32] arrays, so that
    no counter wraps, and they are natural numbers here. *)
Definition registry : Type := list N.

(** Modelled from the spec: [jit_registry_get_max(domain)], the highest id
    assigned. *)
Definition jit_registry_get_max (reg : registry) : nat := length reg.

(** Modelled from the spec: [jit_registry_get_ptr(domain, i)], the pointer
    registered under [i], or null. *)
Definition jit_registry_get_ptr (reg : registry) (i : nat) : N :=
  match i with
  | 0 => 0%N
  | S k => default 0%N (reg !! k)
  end.

(** A user callback [func(inst, args...)]: it may record anything in the
    backend, and returns a value or raises. *)
Definition Func : Type := N → list value → jit_state → outcome value * jit_state.

(** The state threaded through the recorder: the backend, and the list of the
    callback invocations made so far (instance pointer and arguments), which
    only the recorder extends. *)
Record world : Type := World {
  backend : jit_state;
  invocations : list (N * list value)
}.

(** Computations of the recorder: a state and exception monad over the
    world. *)
Definition M (A : Type) : Type := world → outcome A * world.

Definition ret {A} (a : A) : M A := λ w, (Ok a, w).
Definition throw {A} (e : exn) : M A := λ w, (Throw e, w).
Definition undef {A} : M A := λ w, (Undef, w).

(** Sequencing: an exception or undefined behaviour ends the computation
    in the state it arose in. *)
Definition bind {A B} (c : M A) (k : A → M B) : M B :=
  λ w, match c w with
       | (Ok a, w') => k a w'
       | (Throw e, w') => (Throw e, w')
       | (Undef, w') => (Undef, w')
       end.

Declare Scope jit_scope.
Delimit Scope jit_scope with jit.
Notation "x <- c ;; k" := (bind c (λ x, k))
  (at level 100, c at next level, right associativity) : jit_scope.
Notation "c ;; k" := (bind c (λ _, k))
  (at level 100, right associativity) : jit_scope.
Local Open Scope jit_scope.

(** [try { body } catch (...) { handler }] *)
Definition try_catch {A} (body : M A) (handler : exn → M A) : M A :=
  λ w, match body w with
       | (Throw e, w') => handler e w'
       | r => r
       end.

(** A pure computation that may raise. *)
Definition lift {A} (r : outcome A) : M A := λ w, (r, w).

(** Reading and updating the backend. *)
Definition gets {A} (f : jit_state → A) : M A := λ w, (Ok (f (backend w)), w).
Definition modify (f : jit_state → jit_state) : M unit :=
  λ w, (Ok tt, World (f (backend w)) (invocations w)).

(** [func(base, args...)], noted in the list of invocations. *)
Definition invoke (func : Func) (base : N) (args : list value) : M value :=
  λ w, let (r, s) := func base args (backend w) in
       (r, World s (invocations w ++ [(base, args)])).

(** A [for] loop over [ids] that threads the locals [s]. *)
Fixpoint for_each {S} (ids : list nat) (body : nat → S → M S) (s : S) : M S :=
  match ids with
  | [] => ret s
  | i :: ids' => s' <- body i s ;; for_each ids' body s'
  end.

(** *** Backend operations *)

(** Updates of one field of the backend. *)
Definition set_vars (f : list (list Z) → list (list Z)) (s : jit_state) :=
  JitState (f (js_vars s)) (js_prefix s) (js_postpone s) (js_masks s)
           (js_side_effects s) (js_vcalls s).
Definition set_prefix (f : list label → list label) (s : jit_state) :=
  JitState (js_vars s) (f (js_prefix s)) (js_postpone s) (js_masks s)
           (js_side_effects s) (js_vcalls s).
Definition set_postpone (v : Z) (s : jit_state) :=
  JitState (js_vars s) (js_prefix s) v (js_masks s)
           (js_side_effects s) (js_vcalls s).
Definition set_masks (f : list N → list N) (s : jit_state) :=
  JitState (js_vars s) (js_prefix s) (js_postpone s) (f (js_masks s))
           (js_side_effects s) (js_vcalls s).
Definition set_side_effects (f : list N → list N) (s : jit_state) :=
  JitState (js_vars s) (js_prefix s) (js_postpone s) (js_masks s)
           (f (js_side_effects s)) (js_vcalls s).
Definition set_vcalls (f : list vcall_node → list vcall_node) (s : jit_state) :=
  JitState (js_vars s) (js_prefix s) (js_postpone s) (js_masks s)
           (js_side_effects s) (f (js_vcalls s)).

(** Modelled from the spec: the lane data of the variable with reference
    [r]; there is none for the uninitialized reference or an unknown one. *)
Definition var_data (vars : list (list Z)) (r : N) : list Z :=
  match r with
  | 0%N => []
  | N.pos p => default [] (vars !! pred (Pos.to_nat p))
  end.

(** Modelled from the spec: the backend creates a trace variable and hands
    out its reference, the next unused one, never [0]. *)
Definition jit_var_new (d : list Z) : M N :=
  λ w, let s := backend w in
       (Ok (N.of_nat (S (length (js_vars s)))),
        World (set_vars (λ vs, vs ++ [d]) s) (invocations w)).

(** Modelled from the spec: [self.size()], the lane count of an array. *)
Definition jit_var_size (r : N) : M nat :=
  gets (λ s, length (var_data (js_vars s) r)).

(** Modelled from the spec: [jit_prefix_push] and [jit_prefix_pop] push and
    pop a diagnostic label. *)
Definition jit_prefix_push (l : label) : M unit := modify (set_prefix (cons l)).
Definition jit_prefix_pop : M unit := modify (set_prefix tail).

(** Modelled from the spec: [jit_flag] and [jit_set_flag] query and set the
    global "postpone side effects" flag, an [int]. *)
Definition jit_flag (f : JitFlag) : M Z :=
  match f with PostponeSideEffects => gets js_postpone end.
Definition jit_set_flag (f : JitFlag) (v : Z) : M unit :=
  match f with PostponeSideEffects => modify (set_postpone v) end.

(** Modelled from the spec: [jit_var_mask_push] and [jit_var_mask_pop] push
    and pop a boolean mask. *)
Definition jit_var_mask_push (r : N) : M unit := modify (set_masks (cons r)).
Definition jit_var_mask_pop : M unit := modify (set_masks tail).

(** Modelled from the spec: [jit_side_effects_scheduled] is the current
    count of scheduled side effects, [jit_side_effects_rollback] rolls the
    log back to a prior count. *)
Definition jit_side_effects_scheduled : M nat :=
  gets (λ s, length (js_side_effects s)).
Definition jit_side_effects_rollback (n : nat) : M unit :=
  modify (set_side_effects (take n)).

(** *** Lane-wise operations on JIT arrays *)

(** Modelled from the spec: the array operations [neq], [&&], [&], [select]
    and [zero] are not part of the sources.  They act lane by lane ("per-lane
    selector", "zero-filled result"), each creating the variable of its
    result; booleans are the lanes 0 and 1, a selector lane is an instance
    id. *)

(** Lane [i] of an array; an array of size one is broadcast. *)
Definition lane (d : list Z) (i : nat) : Z :=
  if length d =? 1 then nth 0 d 0%Z else nth i d 0%Z.

(** Lane-wise application of [f] to two and to three arrays. *)
Definition bcast2 (f : Z → Z → Z) (a b : list Z) : list Z :=
  map (λ i, f (lane a i) (lane b i)) (seq 0 (length a `max` length b)).

Definition bcast3 (f : Z → Z → Z → Z) (a b c : list Z) : list Z :=
  map (λ i, f (lane a i) (lane b i) (lane c i))
      (seq 0 (length a `max` (length b `max` length c))).

(** A lane as a boolean, a boolean as a lane. *)
Definition truth (z : Z) : bool := negb (z =? 0)%Z.
Definition of_bool (b : bool) : Z := if b then 1%Z else 0%Z.

(** Modelled from the spec: [neq(self, nullptr)]. *)
Definition neq_nullptr (self : N) : M N :=
  d <- gets (λ s, var_data (js_vars s) self) ;;
  jit_var_new (map (λ x, of_bool (truth x)) d).

(** Modelled from the spec: [a && b] and [a & b] on masks. *)
Definition mask_and (a b : N) : M N :=
  da <- gets (λ s, var_data (js_vars s) a) ;;
  db <- gets (λ s, var_data (js_vars s) b) ;;
  jit_var_new (bcast2 (λ x y, of_bool (truth x && truth y)) da db).

(** Modelled from the spec: [self & mask], the instance id where the mask
    holds, null elsewhere. *)
Definition self_and (self m : N) : M N :=
  ds <- gets (λ s, var_data (js_vars s) self) ;;
  dm <- gets (λ s, var_data (js_vars s) m) ;;
  jit_var_new (bcast2 (λ x y, if truth y then x else 0%Z) ds dm).

(** Modelled from the spec: [select] on two arrays. *)
Definition select_array (m a b : N) : M N :=
  dm <- gets (λ s, var_data (js_vars s) m) ;;
  da <- gets (λ s, var_data (js_vars s) a) ;;
  db <- gets (λ s, var_data (js_vars s) b) ;;
  jit_var_new (bcast3 (λ c x y, if truth c then x else y) dm da db).

(** Modelled from the spec: [select(mask, a, b)] on values of one static
    type, leaf by leaf; values of different structure do not type-check in
    the source. *)
Fixpoint select (m : N) (a b : value) {struct a} : M value :=
  match a, b with
  | VNested xs, VNested ys =>
      l <- (fix entries (xs ys : list value) : M (list value) :=
              match xs, ys with
              | [], [] => ret []
              | x :: xs', y :: ys' =>
                  v <- select m x y ;; vs <- entries xs' ys' ;; ret (v :: vs)
              | _, _ => undef
              end) xs ys ;;
      ret (VNested l)
  | VDiff x, VDiff y => v <- select m x y ;; ret (VDiff v)
  | VJit x, VJit y => r <- select_array m x y ;; ret (VJit r)
  | VStruct xs, VStruct ys =>
      l <- (fix fields (xs ys : list value) : M (list value) :=
              match xs, ys with
              | [], [] => ret []
              | x :: xs', y :: ys' =>
                  v <- select m x y ;; vs <- fields xs' ys' ;; ret (v :: vs)
              | _, _ => undef
              end) xs ys ;;
      ret (VStruct l)
  | VOther, VOther => ret VOther
  | VNullptr, VNullptr => ret VNullptr
  | _, _ => undef
  end.

(** Modelled from the spec: [zero<T>(size)], the zero-filled value; every
    JIT array of it is a new variable of [size] lanes, all zero. *)
Fixpoint zero (t : shape) (size : nat) : M value :=
  match t with
  | TNested n e =>
      l <- (fix entries (k : nat) : M (list value) :=
              match k with
              | 0 => ret []
              | S k' => v <- zero e size ;; vs <- entries k' ;; ret (v :: vs)
              end) n ;;
      ret (VNested l)
  | TDiff d => v <- zero d size ;; ret (VDiff v)
  | TJit => r <- jit_var_new (replicate size 0%Z) ;; ret (VJit r)
  | TStruct fs =>
      l <- (fix fields (fs : list shape) : M (list value) :=
              match fs with
              | [] => ret []
              | f :: fs' => v <- zero f size ;; vs <- fields fs' ;; ret (v :: vs)
              end) fs ;;
      ret (VStruct l)
  | TOther => ret VOther
  | TNullptr => ret VNullptr
  end.

(** The loops of [select] and [zero] over entries and fields. *)
Definition select_pack (m : N) : list value → list value → M (list value) :=
  fix pack (xs ys : list value) : M (list value) :=
    match xs, ys with
    | [], [] => ret []
    | x :: xs', y :: ys' =>
        v <- select m x y ;; vs <- pack xs' ys' ;; ret (v :: vs)
    | _, _ => undef
    end.

Definition zero_entries (e : shape) (size : nat) : nat → M (list value) :=
  fix entries (k : nat) : M (list value) :=
    match k with
    | 0 => ret []
    | S k' => v <- zero e size ;; vs <- entries k' ;; ret (v :: vs)
    end.

Definition zero_fields (size : nat) : list shape → M (list value) :=
  fix fields (fs : list shape) : M (list value) :=
    match fs with
    | [] => ret []
    | f :: fs' => v <- zero f size ;; vs <- fields fs' ;; ret (v :: vs)
    end.

(** [std::is_same_v<Result, std::nullptr_t>] *)
Definition is_nullptr_t (t : shape) : bool :=
  match t with TNullptr => true | _ => false end.

(** Modelled from the spec: [jit_var_mask_peek], the currently active
    external mask: the top of the stack; with an empty stack the backend
    hands out a new all-true mask. *)
Definition jit_var_mask_peek : M N :=
  ms <- gets js_masks ;;
  match ms with
  | m :: _ => ret m
  | [] => jit_var_new [1%Z]
  end.

(** Modelled from the spec: [jit_var_new_stmt(Backend, VarType::Bool,
    "$r0 = or <$w x i1> %mask, zeroinitializer", 1, 0, nullptr)], the
    synthesized always-true mask, one lane wide. *)
Definition jit_var_new_stmt_mask : M N := jit_var_new [1%Z].

(** What a mask is replaced by in [set_mask<Is, N>(m, arg)]: the literal
    [true] or a mask array. *)
Inductive mask_arg : Type :=
| MaskLiteral (b : bool)
| MaskArray (m : N).

(** Modelled from the spec: the row of the output table that belongs to
    instance id [id], the number of live ids below it. *)
Definition vcall_row (reg : registry) (id : nat) : nat :=
  length (filter (λ p, p ≠ 0%N) (take (pred id) reg)).

(** Modelled from the spec: the lane data of output slot [slot] of a jump
    table; per lane, the output of the instance the selector names, zero
    for a null selector. *)
Definition vcall_slot_data (reg : registry) (vars : list (list Z))
    (self : list Z) (indices_out_all : list N) (n_out slot : nat) : list Z :=
  map (λ i,
         let id := Z.to_nat (lane self i) in
         if (jit_registry_get_ptr reg id =? 0)%N then 0%Z
         else lane (var_data vars
                      (default 0%N
                         (indices_out_all !! (vcall_row reg id * n_out + slot)))) i)
      (seq 0 (length self)).

(** Modelled from the spec: [jit_var_vcall(label, self, n_inst, n_in, in,
    n_out_all, out_all, se_count, out)] records the node and fills the
    output buffer with one new reference per slot. *)
Definition jit_var_vcall (reg : registry) (l : label) (self : N) (n_inst : nat)
    (indices_in indices_out_all : list N) (se_count : list nat)
    (indices_out : list N) : M (list N) :=
  vars <- gets js_vars ;;
  modify (set_vcalls (λ ns, ns ++ [VCallNode l self n_inst indices_in
                                      indices_out_all se_count indices_out])) ;;
  for_each (seq 0 (length indices_out))
    (λ slot out,
       r <- jit_var_new (vcall_slot_data reg vars (var_data vars self)
                           indices_out_all (length indices_out) slot) ;;
       ret (<[slot := r]> out))
    indices_out.

(** ** The recorder *)

Section Recorder.
(** [detached_t<Self>::Backend], [Base::Domain], the registry of that
    domain, the [Result] type. *)
Variable Backend : JitBackend.
Variable Domain : string.
Variable reg : registry.
Variable Result : shape.

(** [set_mask<Is, N>(mask, arg)] is not part of the sources: it is a
    parameter of the recorder. *)
Variable set_mask : nat → nat → mask_arg → value → value.

(** [(set_mask<Is, N>(mask, args))...] *)
Definition set_mask_pack (m : mask_arg) (args : list value) : list value :=
  imap (λ Is arg, set_mask Is (length args) m arg) args.

(** [if constexpr (Backend == JitBackend::LLVM) { c }] *)
Definition when_LLVM (c : M unit) : M unit :=
  match Backend with LLVM => c | CUDA => ret tt end.

(** The locals of the loop over the registry: [j], [se_count] and
    [indices_out_all]. *)
Record loop_state : Type := LoopState {
  ls_j : nat;
  ls_se_count : list nat;
  ls_indices_out_all : list N
}.

(** One iteration of the loop of [vcall_jit_record_impl], for id [i]. *)
Definition record_instance (name : string) (func : Func) (args : list value)
    (i : nat) (st : loop_state) : M loop_state :=
  let j := ls_j st in
  let se_count := ls_se_count st in
  let indices_out_all := ls_indices_out_all st in
  let label := InstanceLabel Domain name j in
  let base := jit_registry_get_ptr reg i in
  if (base =? 0)%N then ret st
  else
    jit_prefix_push label ;;
    flag_before <- jit_flag PostponeSideEffects ;;
    indices_out_all <-
      try_catch
        (jit_set_flag PostponeSideEffects 1 ;;
         when_LLVM (vcall_mask <- jit_var_new_stmt_mask ;;
                    jit_var_mask_push vcall_mask) ;;
         if is_nullptr_t Result then
           invoke func base (set_mask_pack (MaskLiteral true) args) ;;
           ret indices_out_all
         else
           tmp <- invoke func base args ;;
           lift (collect_indices indices_out_all tmp))
        (λ e,
           jit_prefix_pop ;;
           match se_count !! 0 with
           | Some c => jit_side_effects_rollback c
           | None => undef
           end ;;
           jit_set_flag PostponeSideEffects flag_before ;;
           when_LLVM jit_var_mask_pop ;;
           throw e) ;;
    jit_set_flag PostponeSideEffects flag_before ;;
    jit_prefix_pop ;;
    when_LLVM jit_var_mask_pop ;;
    c <- jit_side_effects_scheduled ;;
    if j <? length se_count
    then ret (LoopState (S j) (<[j := c]> se_count) indices_out_all)
    else undef.

(** [vcall_jit_record_impl<Result>(name, n_inst_max, n_inst_actual, inst,
    func, self, mask, index_sequence, args...)].  In
    [select(mask2, func(...), zero<Result>())] the callback is taken to run
    before [zero<Result>()]; C++ leaves the order open. *)
Definition vcall_jit_record_impl (name : string) (n_inst_max n_inst_actual : nat)
    (inst : N) (func : Func) (self mask : N) (args : list value) : M value :=
  let result := default_value Result in
  if n_inst_actual =? 1 then
    mask2 <- (nn <- neq_nullptr self ;; mask_and mask nn) ;;
    if is_nullptr_t Result then
      invoke func inst (set_mask_pack (MaskArray mask2) args) ;;
      ret result
    else
      r <- invoke func inst (set_mask_pack (MaskArray mask2) args) ;;
      z <- zero Result 1 ;;
      select mask2 r z
  else
    let se_count := replicate (n_inst_actual + 1) 0 in
    indices_in <- lift (collect_indices_pack [] args) ;;
    c0 <- jit_side_effects_scheduled ;;
    let se_count := <[0 := c0]> se_count in
    st <- for_each (seq 1 n_inst_max) (record_instance name func args)
            (LoopState 1 se_count []) ;;
    let se_count := ls_se_count st in
    let indices_out_all := ls_indices_out_all st in
    if n_inst_actual =? 0 then undef
    else
      let indices_out :=
        replicate (length indices_out_all / n_inst_actual) 0%N in
      top <- jit_var_mask_peek ;;
      m <- mask_and top mask ;;
      self_masked <- self_and self m ;;
      indices_out <-
        jit_var_vcall reg (CallLabel Domain name) self_masked n_inst_actual
          indices_in indices_out_all se_count indices_out ;;
      if is_nullptr_t Result then ret result
      else
        match write_indices indices_out result 0 with
        | Some (result', _) => ret result'
        | None => undef
        end.

(** [extract_mask<mask_t<Self>>(args...)] and [placeholder(arg)] are not
    part of the sources either. *)
Variable extract_mask : list value → N.
Variable placeholder : value → value.

(** The scan of the registry in [vcall_jit_record]: the remembered
    pointer [inst] and the count [n_inst_actual]. *)
Definition scan_registry (n_inst_max : nat) : N * nat :=
  fold_left
    (λ '(inst, n_inst_actual) i,
       let base := jit_registry_get_ptr reg i in
       if (base =? 0)%N then (inst, n_inst_actual)
       else (base, S n_inst_actual))
    (seq 1 n_inst_max) (0%N, 0).

(** [vcall_jit_record<Result>(name, func, self, args...)] *)
Definition vcall_jit_record (name : string) (func : Func) (self : N)
    (args : list value) : M value :=
  let n_inst_max := jit_registry_get_max reg in
  let '(inst, n_inst_actual) := scan_registry n_inst_max in
  self_size <- jit_var_size self ;;
  if (n_inst_actual =? 0) || (self_size =? 0) then zero Result self_size
  else
    vcall_jit_record_impl name n_inst_max n_inst_actual inst func self
      (extract_mask args) (map placeholder args).

End Recorder.

(** ** Concrete instances *)

(** Modelled from the spec: [set_mask], [extract_mask] and [placeholder] are
    not part of the sources.  The spec describes the first as "apply mask
    override to argument N of M", an operation parameterized by position:
    here the mask is the trailing argument of the call, [set_mask] replaces
    it, [extract_mask] reads it, and [placeholder] leaves an argument as it
    is.  These instances serve the examples only. *)
Definition set_mask_last (Is N : nat) (m : mask_arg) (arg : value) : value :=
  if Is =? N - 1 then
    match m with
    | MaskLiteral _ => VOther
    | MaskArray r => VJit r
    end
  else arg.

(** Modelled from the spec: [extract_mask], the mask among the arguments:
    the trailing one. *)
Definition extract_mask_last (args : list value) : N :=
  match last args with
  | Some (VJit r) => r
  | _ => 0%N
  end.

(** A backend with three variables: the selector [1] (instance ids 1, 2, 4
    and a null lane), the active mask [2] (false in lane 1) and a data
    array [3]; one side effect is already scheduled. *)
Definition example_state : jit_state :=
  JitState [[1; 2; 4; 0]%Z; [1; 0; 1; 1]%Z; [10; 20; 30; 40]%Z] [] 0 [] [7%N] [].

(** No callback was invoked yet. *)
Definition example_world : world := World example_state [].

(** A callback: the implementation at [102] raises after scheduling a side
    effect; the others schedule one, record a variable and return a
    structure of two arrays and a scalar. *)
Definition example_func : Func :=
  λ base args s,
    if (base =? 102)%N then
      (Throw (Exception 5), set_side_effects (λ l, l ++ [base]) s)
    else
      (Ok (VStruct [VJit 3; VOther; VJit (N.of_nat (S (length (js_vars s))))]),
       set_vars (λ vs, vs ++ [[5%Z]]) (set_side_effects (λ l, l ++ [base]) s)).

(** The [Result] type of the example: two arrays around a scalar. *)
Definition example_result : shape := TStruct [TJit; TOther; TJit].

(** Arguments: a data array and, last, the mask. *)
Definition example_args : list value := [VJit 3; VJit 2].

(** Two more backends with the same three variables: in the first every
    lane of the selector is null, in the second every lane of the active
    mask is false. *)
Definition null_selector_world : world :=
  World (JitState [[0; 0; 0; 0]%Z; [1; 1; 1; 1]%Z; [10; 20; 30; 40]%Z]
           [] 0 [] [] []) [].

Definition false_mask_world : world :=
  World (JitState [[1; 2; 4; 0]%Z; [0; 0; 0; 0]%Z; [10; 20; 30; 40]%Z]
           [] 0 [] [] []) [].

(** Three registries of the domain: ids 1 and 4 live; ids 1, 2 and 4 live,
    the callback of 2 raising; id 4 alone. *)
Definition registry_two : registry := [101; 0; 0; 104]%N.
Definition registry_raising : registry := [101; 102; 0; 104]%N.
Definition registry_one : registry := [0; 0; 0; 104]%N.

(** A structure with an array, a scalar and a nested array of two
    differentiable arrays. *)
Definition roundtrip_example : value :=
  VStruct [VJit 7; VOther; VNested [VDiff (VJit 3); VDiff (VJit 9)]].

(** ** Vocabulary of the properties *)

(** [returns c w Q]: from [w], [c] returns normally with a result and a
    state that satisfy [Q]. *)
Definition returns {A} (c : M A) (w : world) (Q : A → world → Prop) : Prop :=
  ∃ a w', c w = (Ok a, w') ∧ Q a w'.

(** A reference is known when a variable was created for it. *)
Definition known (vars : list (list Z)) (r : N) : Prop :=
  r ≠ 0%N ∧ N.to_nat r ≤ length vars.

(** [grows w w']: from [w] to [w'] variables were created and nothing else
    changed. *)
Record grows (w w' : world) : Prop := Grows {
  grows_vars : js_vars (backend w) `prefix_of` js_vars (backend w');
  grows_prefix : js_prefix (backend w') = js_prefix (backend w);
  grows_postpone : js_postpone (backend w') = js_postpone (backend w);
  grows_masks : js_masks (backend w') = js_masks (backend w);
  grows_side_effects : js_side_effects (backend w') = js_side_effects (backend w);
  grows_vcalls : js_vcalls (backend w') = js_vcalls (backend w);
  grows_invocations : invocations w' = invocations w
}.

(** What holds of the leaves of a zero-filled value. *)
Definition zero_leaf (size : nat) (w : world) (r : N) : Prop :=
  known (js_vars (backend w)) r ∧
  var_data (js_vars (backend w)) r = replicate size 0%Z.

(** What holds of the leaves of [select(m, a, zero)]: they are zero in
    every lane in which the mask data [dm] is false. *)
Definition masked_leaf (dm : list Z) (w : world) (r : N) : Prop :=
  known (js_vars (backend w)) r ∧
  ∀ i, lane dm i = 0%Z → lane (var_data (js_vars (backend w)) r) i = 0%Z.

(** The result of [select(m, r, zero)] and the world it leaves. *)
Definition select_post (dm : list Z) (t : shape) (w : world)
    (res : value) (w' : world) : Prop :=
  grows w w' ∧ has_shape res t = true ∧ Forall (masked_leaf dm w') (leaves res).

(** [select] on [r] against any zero-filled value of the same type, for a
    mask [m] of data [dm]. *)
Definition select_spec (m : N) (dm : list Z) (size : nat) (r : value) : Prop :=
  ∀ t z w,
    has_shape r t = true → has_shape z t = true →
    known (js_vars (backend w)) m → var_data (js_vars (backend w)) m = dm →
    Forall (zero_leaf size w) (leaves z) →
    returns (select m r z) w (select_post dm t w).

(** Values of the static types [ts], one by one. *)
Definition has_shapes (vs : list value) (ts : list shape) : Prop :=
  Forall2 (λ v t, has_shape v t = true) vs ts.

(** The combined mask of the fast path, lane by lane: the active mask and
    "selector is non-null". *)
Definition combined_mask (vars : list (list Z)) (self mask : N) : list Z :=
  bcast2 (λ x y, of_bool (truth x && truth y))
    (var_data vars mask)
    (map (λ x, of_bool (truth x)) (var_data vars self)).

(** A table that never decreases. *)
Definition nondecreasing (l : list nat) : Prop :=
  ∀ i j a b, i ≤ j → l !! i = Some a → l !! j = Some b → a ≤ b.

(** A callback never removes a scheduled side effect. *)
Definition callback_keeps_log (func : Func) : Prop :=
  ∀ base a s,
    length (js_side_effects s) ≤ length (js_side_effects (func base a s).2).

(** A callback returns values of the static type [Result]. *)
Definition callback_typed (func : Func) (Result : shape) : Prop :=
  ∀ base a s tmp s', func base a s = (Ok tmp, s') → has_shape tmp Result = true.

(** What the recorder expects of a callback: it leaves the prefix stack,
    the mask stack and the jump-table nodes as it found them, and only adds
    to the log of side effects. *)
Definition callback_frame (func : Func) : Prop :=
  ∀ base a s,
    let s' := (func base a s).2 in
    js_prefix s' = js_prefix s ∧ js_masks s' = js_masks s ∧
    js_vcalls s' = js_vcalls s ∧
    js_side_effects s `prefix_of` js_side_effects s'.

(** The live ids among [ids], and the live pointers and their number among
    the ids [1..n]. *)
Definition live_ids (reg : registry) (ids : list nat) : list nat :=
  filter (λ i, jit_registry_get_ptr reg i ≠ 0%N) ids.

Definition live_ptrs (reg : registry) (n : nat) : list N :=
  map (jit_registry_get_ptr reg) (live_ids reg (seq 1 n)).

Definition count_live (reg : registry) (n : nat) : nat :=
  length (live_ids reg (seq 1 n)).

(** *** Branches of the multi-instance recorder *)

Section Branches.
Variable Backend : JitBackend.
Variable Domain : string.
Variable reg : registry.
Variable Result : shape.
Variable set_mask : nat → nat → mask_arg → value → value.
Variable name : string.
Variable func : Func.
Variable args : list value.

(** The arguments a branch passes to the callback. *)
Definition branch_args : list value :=
  if is_nullptr_t Result then set_mask_pack set_mask (MaskLiteral true) args
  else args.

(** The backend in which the callback of a branch runs: label pushed,
    side effects postponed, and on LLVM the synthesized mask pushed. *)
Definition enter_branch (l : label) (s : jit_state) : jit_state :=
  let s1 := set_postpone 1 (set_prefix (cons l) s) in
  match Backend with
  | LLVM => set_masks (cons (N.of_nat (S (length (js_vars s)))))
              (set_vars (λ vs, vs ++ [[1%Z]]) s1)
  | CUDA => s1
  end.

(** [if constexpr (Backend == JitBackend::LLVM) jit_var_mask_pop(Backend)] *)
Definition pop_mask (s : jit_state) : jit_state :=
  match Backend with LLVM => set_masks tail s | CUDA => s end.

(** Leaving a branch normally, and unwinding it in the handler. *)
Definition leave_branch (flag_before : Z) (s : jit_state) : jit_state :=
  pop_mask (set_prefix tail (set_postpone flag_before s)).

Definition unwind_branch (flag_before : Z) (c0 : nat) (s : jit_state) : jit_state :=
  pop_mask (set_postpone flag_before
              (set_side_effects (take c0) (set_prefix tail s))).

(** What the handler of a branch leaves: the exception, re-raised from the
    unwound backend. *)
Definition handler_outcome (e : exn) (flag_before : Z) (se_count : list nat)
    (s : jit_state) (inv : list (N * list value)) : outcome loop_state * world :=
  match se_count !! 0 with
  | Some c0 => (Throw e, World (unwind_branch flag_before c0 s) inv)
  | None => (Undef, World (set_prefix tail s) inv)
  end.

(** The number of side effects scheduled in a world. *)
Definition scheduled (w : world) : nat := length (js_side_effects (backend w)).

(** The worlds right after each recorded branch, in order. *)
Fixpoint branch_worlds (ids : list nat) (st : loop_state) (w : world)
  : list world :=
  match ids with
  | [] => []
  | i :: ids' =>
      match record_instance Backend Domain reg Result set_mask name func args i st w with
      | (Ok st', w') =>
          (if decide (jit_registry_get_ptr reg i ≠ 0%N) then [w'] else [])
          ++ branch_worlds ids' st' w'
      | _ => []
      end
  end.

(** The values the callbacks of the recorded branches returned, in
    order. *)
Fixpoint branch_values (ids : list nat) (st : loop_state) (w : world)
  : list value :=
  match ids with
  | [] => []
  | i :: ids' =>
      match record_instance Backend Domain reg Result set_mask name func args i st w with
      | (Ok st', w') =>
          (if decide (jit_registry_get_ptr reg i ≠ 0%N) then
             match func (jit_registry_get_ptr reg i) branch_args
                     (enter_branch (InstanceLabel Domain name (ls_j st))
                        (backend w)) with
             | (Ok tmp, _) => [tmp]
             | _ => []
             end
           else [])
          ++ branch_values ids' st' w'
      | _ => []
      end
  end.

(** The recorder after the loop: the jump-table node and the result. *)
Definition record_node (n_inst_actual : nat) (self mask : N)
    (indices_in : list N) (st : loop_state) : M value :=
  let result := default_value Result in
  let se_count := ls_se_count st in
  let indices_out_all := ls_indices_out_all st in
  if n_inst_actual =? 0 then undef
  else
    let indices_out :=
      replicate (length indices_out_all / n_inst_actual) 0%N in
    top <- jit_var_mask_peek ;;
    m <- mask_and top mask ;;
    self_masked <- self_and self m ;;
    indices_out <-
      jit_var_vcall reg (CallLabel Domain name) self_masked n_inst_actual
        indices_in indices_out_all se_count indices_out ;;
    if is_nullptr_t Result then ret result
    else
      match write_indices indices_out result 0 with
      | Some (result', _) => ret result'
      | None => undef
      end.

(** The locals when the loop starts: [j = 1], [se_count[0]] set. *)
Definition initial_loop_state (n_inst_actual : nat) (w : world) : loop_state :=
  LoopState 1 (<[0 := scheduled w]> (replicate (n_inst_actual + 1) 0)) [].

(** The state of the backend that the loop maintains between two
    iterations, relative to the world [w] the recorder started in. *)
Definition loop_invariant (w : world) (st : loop_state) (w1 : world) : Prop :=
  js_prefix (backend w1) = js_prefix (backend w) ∧
  js_postpone (backend w1) = js_postpone (backend w) ∧
  js_masks (backend w1) = js_masks (backend w) ∧
  js_vcalls (backend w1) = js_vcalls (backend w) ∧
  js_side_effects (backend w) `prefix_of` js_side_effects (backend w1) ∧
  ls_se_count st !! 0 = Some (scheduled w) ∧
  1 ≤ ls_j st.

(** What the loop maintains whatever the callbacks do: the postpone flag
    and [se_count[0]]. *)
Definition flag_invariant (w : world) (st : loop_state) (w1 : world) : Prop :=
  js_postpone (backend w1) = js_postpone (backend w) ∧
  ls_se_count st !! 0 = Some (scheduled w) ∧
  1 ≤ ls_j st.

(** The world a raising branch leaves, for a recorder called in [w]: the
    backend as the callback of a live implementation left it, unwound with
    the flag and the count [se_count[0]] of the call. *)
Definition unwound (w w' : world) : Prop :=
  ∃ base s_in,
    base ≠ 0%N ∧
    backend w' =
    unwind_branch (js_postpone (backend w)) (scheduled w)
      (func base branch_args s_in).2.

(** What the recorder leaves of the backend when a branch raises and the
    callbacks kept to the discipline of the backend. *)
Definition restored (w w' : world) : Prop :=
  js_prefix (backend w') = js_prefix (backend w) ∧
  js_side_effects (backend w') = js_side_effects (backend w) ∧
  js_postpone (backend w') = js_postpone (backend w) ∧
  js_masks (backend w') = js_masks (backend w) ∧
  js_vcalls (backend w') = js_vcalls (backend w).

(** Every recorded branch added [leaf_count Result] output references. *)
Definition output_invariant (st : loop_state) (w : world) : Prop :=
  1 ≤ ls_j st ∧
  length (ls_indices_out_all st) = (ls_j st - 1) * leaf_count Result.

End Branches.

(** ** The fast path and the order of evaluation *)

(** In [select(mask2, func(inst, ...), zero<Result>())] C++ leaves open
    which of the two arguments [func(inst, ...)] and [zero<Result>()] is
    evaluated first; a compiler may create the variables of the zero
    value before it calls the callback. *)
Inductive select_order : Type :=
| CallbackFirst     (* func(inst, ...), then zero<Result>() *)
| ZeroFirst.        (* zero<Result>(), then func(inst, ...) *)

Section RecorderOrder.
Variable Backend : JitBackend.
Variable Domain : string.
Variable reg : registry.
Variable Result : shape.
Variable set_mask : nat → nat → mask_arg → value → value.

(** [vcall_jit_record_impl] with the order of evaluation as a parameter.
    The order shows in the fast path of a call that is not void; the
    multi-instance branch has no such choice. *)
Definition vcall_jit_record_impl_in (order : select_order) (name : string)
    (n_inst_max n_inst_actual : nat) (inst : N) (func : Func) (self mask : N)
    (args : list value) : M value :=
  let result := default_value Result in
  if n_inst_actual =? 1 then
    mask2 <- (nn <- neq_nullptr self ;; mask_and mask nn) ;;
    if is_nullptr_t Result then
      invoke func inst (set_mask_pack set_mask (MaskArray mask2) args) ;;
      ret result
    else
      match order with
      | CallbackFirst =>
          r <- invoke func inst (set_mask_pack set_mask (MaskArray mask2) args) ;;
          z <- zero Result 1 ;;
          select mask2 r z
      | ZeroFirst =>
          z <- zero Result 1 ;;
          r <- invoke func inst (set_mask_pack set_mask (MaskArray mask2) args) ;;
          select mask2 r z
      end
  else
    vcall_jit_record_impl Backend Domain reg Result set_mask name n_inst_max
      n_inst_actual inst func self mask args.

(** The world in which the fast path invokes the callback, [w2] being
    the world in which the combined mask was built. *)
Definition callback_world (order : select_order) (w2 : world) : world :=
  match order with
  | CallbackFirst => w2
  | ZeroFirst => if is_nullptr_t Result then w2 else (zero Result 1 w2).2
  end.

End RecorderOrder.

(** ** Scheduling and evaluation *)

(** [src/python/eval.cpp]: [ScheduleCallback], [schedule] and [eval].
    The Python object model, the traversal utility and the backend are
    not part of the sources: they are parameters. *)
Section Eval.
(** [nb::handle], and the state of the backend. *)
Variable handle : Type.
Variable state : Type.

(** [traverse(name, callback, h)]: the objects the traversal calls the
    callback on, in order. *)
Variable traverse : string → handle → list handle.

(** [supp(h.type()).index]: null for a type without JIT index, else the
    accessor; [s.index(inst_ptr(h))] is the index of the array. *)
Variable index : handle → option N.

(** [int jit_var_schedule(uint32_t)] and [void jit_eval()]. *)
Variable jit_var_schedule : N → state → Z * state.
Variable jit_eval : state → state.

(** [struct ScheduleCallback : TraverseCallback { bool result = false; }] *)
Record ScheduleCallback : Type := { result : bool }.

(** [ScheduleCallback::operator()(nb::handle h)]: [result |= ...] is not
    short-circuited. *)
Definition ScheduleCallback_call (h : handle) (c : ScheduleCallback * state)
  : ScheduleCallback * state :=
  let (s, st) := c in
  match index h with
  | Some i =>
      let (r, st') := jit_var_schedule i st in
      ({| result := result s || negb (r =? 0)%Z |}, st')
  | None => (s, st)
  end.

(** [bool schedule(nb::handle h)] *)
Definition schedule (h : handle) (st : state) : bool * state :=
  let s := {| result := false |} in
  let (s', st') :=
    fold_left (λ c h', ScheduleCallback_call h' c)
      (traverse "drjit.schedule" h) (s, st) in
  (result s', st').

(** [void eval(nb::handle h)] *)
Definition eval (h : handle) (st : state) : state :=
  let (b, st') := schedule h st in
  if b then jit_eval st' else st'.

(** The indices of the JIT arrays the traversal of [h] meets, in order. *)
Definition scheduled_indices (h : handle) : list N :=
  omap index (traverse "drjit.schedule" h).

(** The backend called to schedule the indices [l] one after the other:
    what the calls returned, and the state they leave. *)
Fixpoint run_schedule (l : list N) (st : state) : list Z * state :=
  match l with
  | [] => ([], st)
  | i :: l' =>
      let (r, st1) := jit_var_schedule i st in
      let (rs, st2) := run_schedule l' st1 in
      (r :: rs, st2)
  end.

End Eval.

(** * Properties *)

(** ** Collector and writer: basic facts *)

Lemma collect_indices_nested indices es :
  collect_indices indices (VNested es) = collect_indices_pack indices es.
Proof. reflexivity. Qed.

Lemma collect_indices_struct indices fs :
  collect_indices indices (VStruct fs) = collect_indices_pack indices fs.
Proof. reflexivity. Qed.

Lemma write_indices_nested indices es offset :
  write_indices indices (VNested es) offset =
  match write_indices_pack indices es offset with
  | Some (es', offset') => Some (VNested es', offset')
  | None => None
  end.
Proof. reflexivity. Qed.

Lemma write_indices_pack_cons indices v vs offset :
  write_indices_pack indices (v :: vs) offset =
  match write_indices indices v offset with
  | Some (v', offset') =>
      match write_indices_pack indices vs offset' with
      | Some (vs'', offset'') => Some (v' :: vs'', offset'')
      | None => None
      end
  | None => None
  end.
Proof. reflexivity. Qed.

Lemma write_indices_struct indices fs offset :
  write_indices indices (VStruct fs) offset =
  match write_indices_pack indices fs offset with
  | Some (fs', offset') => Some (VStruct fs', offset')
  | None => None
  end.
Proof. reflexivity. Qed.

(** A successful collection appends exactly the leaves, none of them [0]. *)
Lemma collect_indices_Ok v : ∀ indices l,
  collect_indices indices v = Ok l →
  l = indices ++ leaves v ∧ Forall (λ i, i ≠ 0%N) (leaves v).
Proof.
  induction v as [es IH|d IH|i|fs IH| |] using value_ind'; intros indices l.
  - rewrite collect_indices_nested. simpl leaves.
    revert indices l. induction IH as [|e es He _ IHes]; intros indices l; simpl.
    + intros [= <-]. by rewrite app_nil_r.
    + destruct (collect_indices indices e) as [l1| |] eqn:E; try done.
      intros H. apply He in E as [-> ?]. apply IHes in H as [-> ?].
      split; [by rewrite app_assoc | by apply Forall_app].
  - simpl. apply IH.
  - simpl. destruct (N.eqb_spec i 0); [done|].
    intros [= <-]. split; [done | by constructor].
  - rewrite collect_indices_struct. simpl leaves.
    revert indices l. induction IH as [|e es He _ IHes]; intros indices l; simpl.
    + intros [= <-]. by rewrite app_nil_r.
    + destruct (collect_indices indices e) as [l1| |] eqn:E; try done.
      intros H. apply He in E as [-> ?]. apply IHes in H as [-> ?].
      split; [by rewrite app_assoc | by apply Forall_app].
  - simpl. intros [= <-]. by rewrite app_nil_r.
  - simpl. intros [= <-]. by rewrite app_nil_r.
Qed.

Lemma collect_indices_pack_Ok vs : ∀ indices l,
  collect_indices_pack indices vs = Ok l →
  l = indices ++ leaves_pack vs ∧ Forall (λ i, i ≠ 0%N) (leaves_pack vs).
Proof.
  unfold leaves_pack.
  induction vs as [|v vs IH]; intros indices l; simpl.
  - intros [= <-]. by rewrite app_nil_r.
  - destruct (collect_indices indices v) as [l1| |] eqn:E; try done.
    intros H. apply collect_indices_Ok in E as [-> ?]. apply IH in H as [-> ?].
    split; [by rewrite app_assoc | by apply Forall_app].
Qed.

(** The collector never has undefined behaviour, and the only exception it
    raises is the uninitialized-argument error. *)
Lemma collect_indices_outcome v : ∀ indices,
  (∃ l, collect_indices indices v = Ok l) ∨
  collect_indices indices v = Throw UninitializedArgument.
Proof.
  induction v as [es IH|d IH|i|fs IH| |] using value_ind'; intros indices;
    try (left; eexists; reflexivity).
  - rewrite collect_indices_nested.
    revert indices. induction IH as [|e es He _ IHes]; intros indices; simpl.
    + left; eauto.
    + destruct (He indices) as [[l ->]| ->]; [apply IHes | by right].
  - apply IH.
  - simpl. destruct (i =? 0)%N; [by right | left; eauto].
  - rewrite collect_indices_struct.
    revert indices. induction IH as [|e es He _ IHes]; intros indices; simpl.
    + left; eauto.
    + destruct (He indices) as [[l ->]| ->]; [apply IHes | by right].
Qed.

Lemma collect_indices_pack_outcome vs : ∀ indices,
  (∃ l, collect_indices_pack indices vs = Ok l) ∨
  collect_indices_pack indices vs = Throw UninitializedArgument.
Proof.
  induction vs as [|v vs IH]; intros indices; simpl.
  - left; eauto.
  - destruct (collect_indices_outcome v indices) as [[l ->]| ->];
      [apply IH | by right].
Qed.

(** Writing back: the list read is the segment of [indices] that starts at
    the offset, the target is any value of the same structure. *)
Lemma write_indices_leaves v : ∀ v0 pre post,
  clear_indices v0 = clear_indices v →
  write_indices (pre ++ leaves v ++ post) v0 (length pre) =
  Some (v, length pre + length (leaves v)).
Proof.
  induction v as [es IH|d IH|i|fs IH| |] using value_ind';
    intros v0 pre post Hc; destruct v0 as [es0|d0|i0|fs0| |]; try done.
  - rewrite write_indices_nested. simpl leaves.
    injection Hc as Hc.
    enough (write_indices_pack (pre ++ concat (map leaves es) ++ post) es0 (length pre)
            = Some (es, length pre + length (concat (map leaves es)))) as -> by done.
    revert es0 pre post Hc.
    induction IH as [|e es He _ IHes]; intros [|e0 es0] pre post Hc; try done.
    + simpl. by rewrite Nat.add_0_r.
    + injection Hc as Hc1 Hc2. rewrite write_indices_pack_cons. simpl.
      rewrite <-(app_assoc (leaves e)).
      rewrite (He e0 pre _ Hc1).
      specialize (IHes es0 (pre ++ leaves e) post Hc2).
      rewrite length_app, <-app_assoc in IHes. rewrite IHes.
      by rewrite length_app, Nat.add_assoc.
  - simpl in *. injection Hc as Hc. by rewrite (IH d0 pre post Hc).
  - simpl. rewrite lookup_app_r by done. rewrite Nat.sub_diag. simpl.
    by rewrite Nat.add_1_r.
  - rewrite write_indices_struct. simpl leaves.
    injection Hc as Hc.
    enough (write_indices_pack (pre ++ concat (map leaves fs) ++ post) fs0 (length pre)
            = Some (fs, length pre + length (concat (map leaves fs)))) as -> by done.
    revert fs0 pre post Hc.
    induction IH as [|e es He _ IHes]; intros [|e0 es0] pre post Hc; try done.
    + simpl. by rewrite Nat.add_0_r.
    + injection Hc as Hc1 Hc2. rewrite write_indices_pack_cons. simpl.
      rewrite <-(app_assoc (leaves e)).
      rewrite (He e0 pre _ Hc1).
      specialize (IHes es0 (pre ++ leaves e) post Hc2).
      rewrite length_app, <-app_assoc in IHes. rewrite IHes.
      by rewrite length_app, Nat.add_assoc.
  - simpl. by rewrite Nat.add_0_r.
  - simpl. by rewrite Nat.add_0_r.
Qed.

Lemma clear_indices_idemp v : clear_indices (clear_indices v) = clear_indices v.
Proof.
  induction v as [es IH|d IH|i|fs IH| |] using value_ind'; simpl; try done.
  - f_equal. rewrite <-list_fmap_compose. apply Forall_fmap_ext_1.
    eapply Forall_impl; [exact IH|]. by intros x Hx.
  - by rewrite IH.
  - f_equal. rewrite <-list_fmap_compose. apply Forall_fmap_ext_1.
    eapply Forall_impl; [exact IH|]. by intros x Hx.
Qed.

Lemma has_shape_nested es n e :
  has_shape (VNested es) (TNested n e) =
  (length es =? n) && forallb (λ x, has_shape x e) es.
Proof. reflexivity. Qed.

Lemma has_shape_default v : ∀ t,
  has_shape v t = true → clear_indices v = default_value t.
Proof.
  induction v as [es IH|d IH|i|fs IH| |] using value_ind';
    intros [n e|t'| |ts| |] H; try done; simpl in *.
  - apply andb_prop in H as [Hn Hall]. apply Nat.eqb_eq in Hn as <-.
    f_equal. induction IH as [|x es Hx _ IHes]; [done|].
    simpl in *. apply andb_prop in Hall as [H1 H2].
    by rewrite (Hx _ H1), (IHes H2).
  - by rewrite (IH _ H).
  - f_equal. revert ts H. induction IH as [|x fs Hx _ IHfs]; intros [|t ts] H; try done.
    simpl in *. apply andb_prop in H as [H1 H2].
    by rewrite (Hx _ H1), (IHfs _ H2).
Qed.

Lemma has_shape_leaf_count v : ∀ t,
  has_shape v t = true → length (leaves v) = leaf_count t.
Proof.
  induction v as [es IH|d IH|i|fs IH| |] using value_ind';
    intros [n e|t'| |ts| |] H; try done; simpl in *.
  - apply andb_prop in H as [Hn Hall]. apply Nat.eqb_eq in Hn as <-.
    induction IH as [|x es Hx _ IHes]; [done|].
    simpl in *. apply andb_prop in Hall as [H1 H2].
    rewrite length_app, (Hx _ H1), (IHes H2). lia.
  - by apply IH.
  - revert ts H. induction IH as [|x fs Hx _ IHfs]; intros [|t ts] H; try done.
    simpl in *. apply andb_prop in H as [H1 H2].
    by rewrite length_app, (Hx _ H1), (IHfs _ H2).
Qed.

Lemma collect_indices_uninitialized v indices :
  0%N ∈ leaves v → collect_indices indices v = Throw UninitializedArgument.
Proof.
  intros Hin. destruct (collect_indices_outcome v indices) as [[l Hl]|]; [|done].
  apply collect_indices_Ok in Hl as [_ Hnz].
  rewrite Forall_forall in Hnz. by destruct (Hnz _ Hin).
Qed.

Lemma collect_indices_pack_uninitialized vs indices :
  0%N ∈ leaves_pack vs → collect_indices_pack indices vs = Throw UninitializedArgument.
Proof.
  intros Hin. destruct (collect_indices_pack_outcome vs indices) as [[l Hl]|]; [|done].
  apply collect_indices_pack_Ok in Hl as [_ Hnz].
  rewrite Forall_forall in Hnz. by destruct (Hnz _ Hin).
Qed.

(** ** Round trip of the collector and the writer *)

(** C6. Collecting the references of a value and writing the collected list,
    from offset 0, into a freshly zero-initialized value of the same
    structure (the value with its references cleared, which is the
    default-constructed value of its static type) gives the value back,
    reference for reference, and leaves the offset at the length of the
    list. *)
Theorem collect_write_roundtrip (v : value) (l : list N) :
  collect_indices [] v = Ok l →
  write_indices l (clear_indices v) 0 = Some (v, length l) ∧
  ∀ t, has_shape v t = true →
       write_indices l (default_value t) 0 = Some (v, length l).
Proof.
  intros Hc. apply collect_indices_Ok in Hc as [-> _]. simpl.
  assert (write_indices (leaves v) (clear_indices v) 0 = Some (v, length (leaves v))) as Hw.
  { pose proof (write_indices_leaves v (clear_indices v) [] []
                  (clear_indices_idemp v)) as H.
    by rewrite app_nil_r in H. }
  split; [done|].
  intros t Ht. by rewrite <-(has_shape_default _ _ Ht).
Qed.

Lemma collect_write_roundtrip_witness :
  write_indices [7; 3; 9]%N (clear_indices roundtrip_example) 0
  = Some (roundtrip_example, 3).
Proof.
  exact (proj1 (collect_write_roundtrip roundtrip_example [7; 3; 9]%N eq_refl)).
Defined.

(** ** Reasoning about computations *)

Lemma returns_ret {A} (a : A) w (Q : A → world → Prop) :
  Q a w → returns (ret a) w Q.
Proof. intros. by exists a, w. Qed.

Lemma returns_bind {A B} (c : M A) (k : A → M B) w Q1 (Q : B → world → Prop) :
  returns c w Q1 →
  (∀ a w', Q1 a w' → returns (k a) w' Q) →
  returns (x <- c ;; k x) w Q.
Proof.
  intros (a & w' & Hc & Hq) Hk. destruct (Hk a w' Hq) as (b & w'' & Hkb & Hb).
  exists b, w''. unfold bind. by rewrite Hc.
Qed.

Lemma returns_mono {A} (c : M A) w (Q Q' : A → world → Prop) :
  returns c w Q → (∀ a w', Q a w' → Q' a w') → returns c w Q'.
Proof. intros (a & w' & Hc & Hq) H. exists a, w'. eauto. Qed.

Lemma returns_gets {A} (f : jit_state → A) w (Q : A → world → Prop) :
  Q (f (backend w)) w → returns (gets f) w Q.
Proof. intros. by eexists _, _. Qed.

Lemma returns_bind_gets {A B} (f : jit_state → A) (k : A → M B) w Q :
  returns (k (f (backend w))) w Q → returns (x <- gets f ;; k x) w Q.
Proof. done. Qed.

Lemma var_data_app vars ext r :
  known vars r → var_data (vars ++ ext) r = var_data vars r.
Proof.
  intros [Hr Hle]. destruct r as [|p]; [done|]. simpl in *.
  rewrite lookup_app_l; [done|]. lia.
Qed.

Lemma var_data_prefix vars vars' r :
  vars `prefix_of` vars' → known vars r → var_data vars' r = var_data vars r.
Proof. intros [ext ->]. apply var_data_app. Qed.

Lemma known_prefix vars vars' r :
  vars `prefix_of` vars' → known vars r → known vars' r.
Proof.
  intros Hp [Hr Hle]. split; [done|].
  apply prefix_length in Hp. lia.
Qed.

Lemma var_data_new vars d :
  var_data (vars ++ [d]) (N.of_nat (S (length vars))) = d.
Proof.
  destruct (N.of_nat (S (length vars))) as [|p] eqn:E; [lia|]. simpl.
  replace (pred (Pos.to_nat p)) with (length vars) by lia.
  by rewrite lookup_app_r, Nat.sub_diag.
Qed.

Lemma grows_refl w : grows w w.
Proof. by split. Qed.

Lemma grows_trans w1 w2 w3 : grows w1 w2 → grows w2 w3 → grows w1 w3.
Proof.
  intros [] []. split; try congruence. by etrans.
Qed.

Lemma jit_var_new_returns d w :
  returns (jit_var_new d) w
    (λ r w', grows w w' ∧ known (js_vars (backend w')) r ∧
             var_data (js_vars (backend w')) r = d).
Proof.
  eexists _, _. split; [reflexivity|]. simpl. split; [|split].
  - split; try done. simpl. by apply prefix_app_r.
  - split; [lia|]. rewrite length_app. simpl. lia.
  - apply var_data_new.
Qed.

Lemma neq_nullptr_returns self w :
  returns (neq_nullptr self) w
    (λ r w', grows w w' ∧ known (js_vars (backend w')) r ∧
             var_data (js_vars (backend w')) r =
             map (λ x, of_bool (truth x)) (var_data (js_vars (backend w)) self)).
Proof.
  unfold neq_nullptr. apply returns_bind_gets, jit_var_new_returns.
Qed.

Lemma mask_and_returns a b w :
  returns (mask_and a b) w
    (λ r w', grows w w' ∧ known (js_vars (backend w')) r ∧
             var_data (js_vars (backend w')) r =
             bcast2 (λ x y, of_bool (truth x && truth y))
               (var_data (js_vars (backend w)) a)
               (var_data (js_vars (backend w)) b)).
Proof.
  unfold mask_and. do 2 apply returns_bind_gets. apply jit_var_new_returns.
Qed.

Lemma self_and_returns a b w :
  returns (self_and a b) w (λ r w', grows w w').
Proof.
  unfold self_and. do 2 apply returns_bind_gets.
  eapply returns_mono; [apply jit_var_new_returns|]. by intros ?? [? _].
Qed.

Lemma select_array_returns m a b w :
  returns (select_array m a b) w
    (λ r w', grows w w' ∧ known (js_vars (backend w')) r ∧
             var_data (js_vars (backend w')) r =
             bcast3 (λ c x y, if truth c then x else y)
               (var_data (js_vars (backend w)) m)
               (var_data (js_vars (backend w)) a)
               (var_data (js_vars (backend w)) b)).
Proof.
  unfold select_array. do 3 apply returns_bind_gets. apply jit_var_new_returns.
Qed.

Lemma grows_known w w' r :
  grows w w' → known (js_vars (backend w)) r →
  known (js_vars (backend w')) r ∧
  var_data (js_vars (backend w')) r = var_data (js_vars (backend w)) r.
Proof.
  intros [Hp _ _ _ _ _ _] Hk. split.
  - by eapply known_prefix.
  - by apply var_data_prefix.
Qed.

(** *** Lanes *)

Lemma lane_small d i : length d ≤ 1 → lane d i = lane d 0.
Proof.
  unfold lane. destruct d as [|x [|y d]]; simpl; [by destruct i|done|lia].
Qed.

Lemma lane_map_seq (f : nat → Z) n i :
  lane (map f (seq 0 n)) i =
  if n =? 1 then f 0 else if i <? n then f i else 0%Z.
Proof.
  unfold lane. rewrite length_map, length_seq.
  destruct (Nat.eqb_spec n 1) as [->|Hn]; [done|].
  destruct (Nat.ltb_spec i n) as [Hi|Hi].
  - rewrite (nth_indep _ 0%Z (f 0)) by (rewrite length_map, length_seq; lia).
    rewrite map_nth, seq_nth by done. done.
  - apply nth_overflow. rewrite length_map, length_seq. lia.
Qed.

Lemma lane_map_truth d i :
  lane (map (λ x, of_bool (truth x)) d) i = of_bool (truth (lane d i)).
Proof.
  unfold lane. rewrite length_map.
  destruct (length d =? 1);
    exact (map_nth (λ x, of_bool (truth x)) d 0%Z _).
Qed.

Lemma lane_bcast2_zero (f : Z → Z → Z) a b i :
  f (lane a i) (lane b i) = 0%Z → lane (bcast2 f a b) i = 0%Z.
Proof.
  intros Hf. unfold bcast2. rewrite lane_map_seq.
  destruct (Nat.eqb_spec (length a `max` length b) 1) as [Hn|Hn].
  - rewrite <-(lane_small a i), <-(lane_small b i) by lia. done.
  - by destruct (i <? _).
Qed.

Lemma lane_bcast3_zero (f : Z → Z → Z → Z) a b c i :
  f (lane a i) (lane b i) (lane c i) = 0%Z → lane (bcast3 f a b c) i = 0%Z.
Proof.
  intros Hf. unfold bcast3. rewrite lane_map_seq.
  destruct (Nat.eqb_spec (length a `max` (length b `max` length c)) 1) as [Hn|Hn].
  - rewrite <-(lane_small a i), <-(lane_small b i), <-(lane_small c i) by lia. done.
  - by destruct (i <? _).
Qed.

Lemma lane_replicate_zero n i : lane (replicate n 0%Z) i = 0%Z.
Proof.
  unfold lane. destruct (_ =? 1).
  - destruct n; done.
  - revert i. induction n as [|n IH]; intros [|i]; simpl; auto.
Qed.

(** The combined mask of the fast path is false in every lane whose
    selector is null or whose mask is false. *)
Lemma combined_mask_false dm ds i :
  lane ds i = 0%Z ∨ lane dm i = 0%Z →
  lane (bcast2 (λ x y, of_bool (truth x && truth y)) dm
          (map (λ x, of_bool (truth x)) ds)) i = 0%Z.
Proof.
  intros H. apply lane_bcast2_zero. rewrite lane_map_truth.
  destruct H as [-> | ->]; simpl; [|done].
  by rewrite andb_false_r.
Qed.

(** *** Typing of lists of values *)

Lemma has_shape_nested_iff es n e :
  has_shape (VNested es) (TNested n e) = true ↔ has_shapes es (replicate n e).
Proof.
  rewrite has_shape_nested, andb_true_iff, Nat.eqb_eq. unfold has_shapes. split.
  - intros [<- H]. induction es as [|x es IH]; simpl in *; [constructor|].
    apply andb_prop in H as [? ?]. constructor; auto.
  - intros H. split.
    + apply Forall2_length in H. by rewrite length_replicate in H.
    + revert n H. induction es as [|x es IH]; intros [|n] H; simpl in *;
        inversion H; subst; [done|].
      apply andb_true_iff. eauto.
Qed.

Lemma has_shape_struct_iff fs ts :
  has_shape (VStruct fs) (TStruct ts) = true ↔ has_shapes fs ts.
Proof.
  unfold has_shapes. simpl. revert ts.
  induction fs as [|x fs IH]; intros [|t ts]; split; intros H;
    try done; try (by inversion H); try constructor.
  - by apply andb_prop in H as [? ?].
  - apply IH. by apply andb_prop in H as [? ?].
  - inversion H; subst. apply andb_true_iff. split; [done|]. by apply IH.
Qed.

(** *** [zero] and [select] *)

Lemma select_nested m xs ys :
  select m (VNested xs) (VNested ys) =
  (l <- select_pack m xs ys ;; ret (VNested l)).
Proof. reflexivity. Qed.

Lemma select_struct m xs ys :
  select m (VStruct xs) (VStruct ys) =
  (l <- select_pack m xs ys ;; ret (VStruct l)).
Proof. reflexivity. Qed.

Lemma zero_nested n e size :
  zero (TNested n e) size = (l <- zero_entries e size n ;; ret (VNested l)).
Proof. reflexivity. Qed.

Lemma zero_struct fs size :
  zero (TStruct fs) size = (l <- zero_fields size fs ;; ret (VStruct l)).
Proof. reflexivity. Qed.

Lemma zero_leaf_grows size w w' r :
  grows w w' → zero_leaf size w r → zero_leaf size w' r.
Proof.
  intros Hg [Hk Hd]. destruct (grows_known _ _ _ Hg Hk) as [? Hd'].
  split; [done | congruence].
Qed.

Lemma zero_returns t size : ∀ w,
  returns (zero t size) w
    (λ z w', grows w w' ∧ has_shape z t = true ∧
             Forall (zero_leaf size w') (leaves z)).
Proof.
  induction t as [n e IH|d IH| |fs IH| |] using shape_ind'; intros w.
  - rewrite zero_nested.
    eapply returns_bind with
      (Q1 := λ l w', grows w w' ∧ has_shapes l (replicate n e) ∧
                     Forall (zero_leaf size w') (concat (map leaves l))).
    + clear -IH. revert w. induction n as [|n IHn]; intros w; simpl.
      * apply returns_ret. split; [apply grows_refl|]. split; constructor.
      * eapply returns_bind; [apply IH|]. intros v w1 (Hg1 & Hv & Hl1).
        eapply returns_bind; [apply IHn|]. intros vs w2 (Hg2 & Hvs & Hl2).
        apply returns_ret. split; [by eapply grows_trans|].
        split; [by constructor|]. simpl. apply Forall_app. split; [|done].
        eapply Forall_impl; [exact Hl1|]. intros r. by apply zero_leaf_grows.
    + intros l w' (Hg & Hl & Hz). apply returns_ret.
      split; [done|]. split; [by apply has_shape_nested_iff | done].
  - simpl. eapply returns_bind; [apply IH|]. intros v w' (Hg & Hv & Hl).
    by apply returns_ret.
  - simpl. eapply returns_bind; [apply jit_var_new_returns|].
    intros r w' (Hg & Hk & Hd). apply returns_ret.
    split; [done|]. split; [done|]. simpl. constructor; [by split | constructor].
  - rewrite zero_struct.
    eapply returns_bind with
      (Q1 := λ l w', grows w w' ∧ has_shapes l fs ∧
                     Forall (zero_leaf size w') (concat (map leaves l))).
    + revert w. induction IH as [|f fs Hf _ IHfs]; intros w; simpl.
      * apply returns_ret. split; [apply grows_refl|]. split; constructor.
      * eapply returns_bind; [apply Hf|]. intros v w1 (Hg1 & Hv & Hl1).
        eapply returns_bind; [apply IHfs|]. intros vs w2 (Hg2 & Hvs & Hl2).
        apply returns_ret. split; [by eapply grows_trans|].
        split; [by constructor|]. simpl. apply Forall_app. split; [|done].
        eapply Forall_impl; [exact Hl1|]. intros r. by apply zero_leaf_grows.
    + intros l w' (Hg & Hl & Hz). apply returns_ret.
      split; [done|]. split; [by apply has_shape_struct_iff | done].
  - apply returns_ret. split; [apply grows_refl|]. split; [done|constructor].
  - apply returns_ret. split; [apply grows_refl|]. split; [done|constructor].
Qed.

Lemma masked_leaf_grows dm w w' r :
  grows w w' → masked_leaf dm w r → masked_leaf dm w' r.
Proof.
  intros Hg [Hk Hd]. destruct (grows_known _ _ _ Hg Hk) as [? Hd'].
  split; [done|]. intros i Hi. rewrite Hd'. auto.
Qed.

Lemma select_pack_returns m dm size xs :
  Forall (select_spec m dm size) xs →
  ∀ ts ys w,
    has_shapes xs ts → has_shapes ys ts →
    known (js_vars (backend w)) m → var_data (js_vars (backend w)) m = dm →
    Forall (zero_leaf size w) (concat (map leaves ys)) →
    returns (select_pack m xs ys) w
      (λ l w', grows w w' ∧ has_shapes l ts ∧
               Forall (masked_leaf dm w') (concat (map leaves l))).
Proof.
  induction 1 as [|x xs Hx _ IH]; intros ts ys w Hxs Hys Hm Hdm Hz.
  - inversion Hxs; subst. inversion Hys; subst. simpl.
    apply returns_ret. split; [apply grows_refl|]. split; constructor.
  - inversion Hxs as [|? t ? ts' Hxt Hxs']; subst.
    inversion Hys as [|y ? ys' ? Hyt Hys']; subst. simpl in *.
    apply Forall_app in Hz as [Hz1 Hz2].
    eapply returns_bind; [by apply (Hx t y w)|].
    intros v w1 (Hg1 & Hv & Hl1).
    destruct (grows_known _ _ _ Hg1 Hm) as [Hm1 Hdm1].
    eapply returns_bind.
    { apply (IH ts' ys' w1 Hxs' Hys' Hm1); [congruence|].
      eapply Forall_impl; [exact Hz2|]. intros r. by apply zero_leaf_grows. }
    intros vs w2 (Hg2 & Hvs & Hl2). apply returns_ret.
    split; [by eapply grows_trans|]. split; [by constructor|].
    simpl. apply Forall_app. split; [|done].
    eapply Forall_impl; [exact Hl1|]. intros r. by apply masked_leaf_grows.
Qed.

Lemma select_returns m dm size r : select_spec m dm size r.
Proof.
  induction r as [es IH|d IH|x|fs IH| |] using value_ind';
    intros t z w Hr Hz Hm Hdm Hzl;
    destruct t as [n e|t'| |ts| |]; try done;
    destruct z as [ys|y|y|ys| |]; try done.
  - rewrite select_nested.
    apply has_shape_nested_iff in Hr, Hz.
    eapply returns_bind; [by eapply select_pack_returns|].
    intros l w' (Hg & Hl & Hml). apply returns_ret.
    split; [done|]. split; [by apply has_shape_nested_iff | done].
  - simpl in *. eapply returns_bind; [by apply (IH t' y w)|].
    intros v w' (Hg & Hv & Hl). by apply returns_ret.
  - simpl in *. eapply returns_bind; [apply select_array_returns|].
    intros r w' (Hg & Hk & Hd). apply returns_ret.
    split; [done|]. split; [done|]. simpl. constructor; [|constructor].
    split; [done|]. intros i Hi. rewrite Hd. apply lane_bcast3_zero.
    rewrite Hdm, Hi. simpl.
    apply Forall_inv in Hzl as [_ ->]. apply lane_replicate_zero.
  - rewrite select_struct.
    apply has_shape_struct_iff in Hr, Hz.
    eapply returns_bind; [by eapply select_pack_returns|].
    intros l w' (Hg & Hl & Hml). apply returns_ret.
    split; [done|]. split; [by apply has_shape_struct_iff | done].
  - apply returns_ret. split; [apply grows_refl|]. split; [done|constructor].
  - apply returns_ret. split; [apply grows_refl|]. split; [done|constructor].
Qed.

Lemma bind_Ok {A B} (c : M A) (k : A → M B) w a w' :
  c w = (Ok a, w') → (x <- c ;; k x) w = k a w'.
Proof. intros H. unfold bind. by rewrite H. Qed.

Lemma bind_Throw {A B} (c : M A) (k : A → M B) w e w' :
  c w = (Throw e, w') → (x <- c ;; k x) w = (Throw e, w').
Proof. intros H. unfold bind. by rewrite H. Qed.

Lemma bind_Undef {A B} (c : M A) (k : A → M B) w w' :
  c w = (Undef, w') → (x <- c ;; k x) w = (Undef, w').
Proof. intros H. unfold bind. by rewrite H. Qed.

(** ** The single-instance fast path *)

Lemma combined_mask_returns self mask w :
  known (js_vars (backend w)) mask →
  returns (nn <- neq_nullptr self ;; mask_and mask nn) w
    (λ mask2 w2, grows w w2 ∧ known (js_vars (backend w2)) mask2 ∧
                 var_data (js_vars (backend w2)) mask2 =
                 combined_mask (js_vars (backend w)) self mask).
Proof.
  intros Hm.
  eapply returns_bind; [apply neq_nullptr_returns|]. intros nn w1 (Hg1 & Hk1 & Hd1).
  eapply returns_mono; [apply mask_and_returns|]. intros mask2 w2 (Hg2 & Hk2 & Hd2).
  split; [by eapply grows_trans|]. split; [done|].
  rewrite Hd2, Hd1. unfold combined_mask.
  by destruct (grows_known _ _ _ Hg1 Hm) as [_ ->].
Qed.

Section FastPath.
Variable Backend : JitBackend.
Variable Domain : string.
Variable reg : registry.
Variable Result : shape.
Variable set_mask : nat → nat → mask_arg → value → value.

Lemma fast_path_unfold name n_inst_max inst (func : Func) self mask args w
    mask2 w2 :
  (nn <- neq_nullptr self ;; mask_and mask nn) w = (Ok mask2, w2) →
  vcall_jit_record_impl Backend Domain reg Result set_mask
    name n_inst_max 1 inst func self mask args w =
  (if is_nullptr_t Result then
     invoke func inst (set_mask_pack set_mask (MaskArray mask2) args) ;;
     ret (default_value Result)
   else
     r <- invoke func inst (set_mask_pack set_mask (MaskArray mask2) args) ;;
     z <- zero Result 1 ;;
     select mask2 r z) w2.
Proof.
  intros H. unfold vcall_jit_record_impl. rewrite Nat.eqb_refl.
  by rewrite (bind_Ok _ _ _ _ _ H).
Qed.

End FastPath.

(** ** The loop of the multi-instance recorder *)

Lemma is_nullptr_t_leaf_count t : is_nullptr_t t = true → leaf_count t = 0.
Proof. by destruct t. Qed.

(** [select] and [zero] raise no exception. *)
Lemma select_pack_no_throw m xs :
  Forall (λ x, ∀ b w e, (select m x b w).1 ≠ Throw e) xs →
  ∀ ys w e, (select_pack m xs ys w).1 ≠ Throw e.
Proof.
  induction 1 as [|x xs Hx _ IH]; intros [|y ys] w e; try done.
  simpl. unfold bind at 1. specialize (Hx y w).
  destruct (select m x y w) as [[v|e'|] w1]; simpl in *;
    [| by destruct (Hx e') | done].
  unfold bind at 1. specialize (IH ys w1).
  destruct (select_pack m xs ys w1) as [[vs|e'|] w2]; simpl in *;
    [done | by destruct (IH e') | done].
Qed.

Lemma select_no_throw m a : ∀ b w e, (select m a b w).1 ≠ Throw e.
Proof.
  induction a as [es IH|d IH|x|fs IH| |] using value_ind';
    intros [ys|y|y|ys| |] w e; try done.
  - rewrite select_nested. unfold bind.
    pose proof (select_pack_no_throw m es IH ys w) as H.
    destruct (select_pack m es ys w) as [[vs|e'|] w1]; simpl in *;
      [done | by destruct (H e') | done].
  - simpl. unfold bind. specialize (IH y w).
    destruct (select m d y w) as [[v|e'|] w1]; simpl in *;
      [done | by destruct (IH e') | done].
  - rewrite select_struct. unfold bind.
    pose proof (select_pack_no_throw m fs IH ys w) as H.
    destruct (select_pack m fs ys w) as [[vs|e'|] w1]; simpl in *;
      [done | by destruct (H e') | done].
Qed.

Lemma nondecreasing_cons a l :
  Forall (λ b, a ≤ b) l → nondecreasing l → nondecreasing (a :: l).
Proof.
  intros Hall Hl [|i] [|j] x y Hij Hx Hy; simpl in *; try lia.
  - injection Hx as <-. injection Hy as <-. done.
  - injection Hx as <-. rewrite Forall_forall in Hall.
    apply Hall. by eapply list_elem_of_lookup_2.
  - eapply (Hl i j); eauto with lia.
Qed.

Lemma for_each_nil {S} (body : nat → S → M S) s w :
  for_each [] body s w = (Ok s, w).
Proof. reflexivity. Qed.

Lemma for_each_cons {S} (body : nat → S → M S) i ids s w :
  for_each (i :: ids) body s w =
  match body i s w with
  | (Ok s', w') => for_each ids body s' w'
  | (Throw e, w') => (Throw e, w')
  | (Undef, w') => (Undef, w')
  end.
Proof. reflexivity. Qed.

Lemma for_each_returns {S} (I : S → world → Prop) (body : nat → S → M S) ids :
  (∀ i s w, I s w → returns (body i s) w I) →
  ∀ s w, I s w → returns (for_each ids body s) w I.
Proof.
  intros Hbody. induction ids as [|i ids IH]; intros s w HI.
  - by apply returns_ret.
  - simpl. eapply returns_bind; [by apply Hbody|]. apply IH.
Qed.

Lemma returns_bind_modify {B} (f : jit_state → jit_state) (k : M B) w Q :
  returns k (World (f (backend w)) (invocations w)) Q →
  returns (modify f ;; k) w Q.
Proof. done. Qed.

Lemma jit_var_mask_peek_returns w :
  returns jit_var_mask_peek w (λ _ w', grows w w').
Proof.
  unfold jit_var_mask_peek. apply returns_bind_gets.
  destruct (js_masks (backend w)).
  - eapply returns_mono; [apply jit_var_new_returns|]. by intros ?? [? _].
  - apply returns_ret, grows_refl.
Qed.

Lemma jit_var_vcall_returns reg l self n_inst indices_in indices_out_all
    se_count indices_out w :
  returns (jit_var_vcall reg l self n_inst indices_in indices_out_all
             se_count indices_out) w
    (λ out w',
       grows (World (set_vcalls
                       (λ ns, ns ++ [VCallNode l self n_inst indices_in
                                       indices_out_all se_count indices_out])
                       (backend w)) (invocations w)) w' ∧
       length out = length indices_out).
Proof.
  unfold jit_var_vcall. apply returns_bind_gets.
  apply returns_bind_modify.
  apply for_each_returns; [|split; [apply grows_refl|done]].
  intros slot out w1 [Hg Hlen].
  eapply returns_bind; [apply jit_var_new_returns|]. intros r w2 (Hg2 & _ & _).
  apply returns_ret. split; [by eapply grows_trans|].
  by rewrite length_insert.
Qed.

(** An invariant of the loop body is an invariant of the loop; so is what
    holds when an iteration raises. *)
Lemma for_each_invariant {S} (I : S → world → Prop) (T : exn → world → Prop)
    (body : nat → S → M S) ids :
  (∀ i s w, I s w →
     match body i s w with
     | (Ok s', w') => I s' w'
     | (Throw e, w') => T e w'
     | (Undef, _) => True
     end) →
  ∀ s w, I s w →
    match for_each ids body s w with
    | (Ok s', w') => I s' w'
    | (Throw e, w') => T e w'
    | (Undef, _) => True
    end.
Proof.
  intros Hbody. induction ids as [|i ids IH]; intros s w HI; [done|].
  rewrite for_each_cons. specialize (Hbody i s w HI).
  destruct (body i s w) as [[s'|e|] w']; [by apply IH | done | done].
Qed.

Section Loop.
Variable Backend : JitBackend.
Variable Domain : string.
Variable reg : registry.
Variable Result : shape.
Variable set_mask : nat → nat → mask_arg → value → value.
Variable name : string.
Variable func : Func.
Variable args : list value.

Abbreviation record_instance' :=
  (record_instance Backend Domain reg Result set_mask name func args).
Abbreviation branch_args := (branch_args Result set_mask args).
Abbreviation enter_branch := (enter_branch Backend).
Abbreviation pop_mask := (pop_mask Backend).
Abbreviation leave_branch := (leave_branch Backend).
Abbreviation unwind_branch := (unwind_branch Backend).
Abbreviation handler_outcome := (handler_outcome Backend).
Abbreviation branch_worlds :=
  (branch_worlds Backend Domain reg Result set_mask name func args).
Abbreviation record_node := (record_node Domain reg Result name).
Abbreviation output_invariant := (output_invariant Result).
Abbreviation unwound := (unwound Backend Result set_mask func args).

Lemma record_instance_null i st w :
  jit_registry_get_ptr reg i = 0%N → record_instance' i st w = (Ok st, w).
Proof. intros H. unfold record_instance. by rewrite H. Qed.

Lemma record_instance_live i st w :
  jit_registry_get_ptr reg i ≠ 0%N →
  record_instance' i st w =
  let base := jit_registry_get_ptr reg i in
  let j := ls_j st in
  let flag_before := js_postpone (backend w) in
  let inv := invocations w ++ [(base, branch_args)] in
  match func base branch_args
          (enter_branch (InstanceLabel Domain name j) (backend w)) with
  | (Ok tmp, s) =>
      match (if is_nullptr_t Result then Ok (ls_indices_out_all st)
             else collect_indices (ls_indices_out_all st) tmp) with
      | Ok indices_out_all =>
          if j <? length (ls_se_count st) then
            (Ok (LoopState (S j)
                   (<[j := length (js_side_effects s)]> (ls_se_count st))
                   indices_out_all),
             World (leave_branch flag_before s) inv)
          else (Undef, World (leave_branch flag_before s) inv)
      | Throw e => handler_outcome e flag_before (ls_se_count st) s inv
      | Undef => (Undef, World s inv)
      end
  | (Throw e, s) => handler_outcome e flag_before (ls_se_count st) s inv
  | (Undef, s) => (Undef, World s inv)
  end.
Proof.
  intros Hlive. unfold record_instance.
  destruct (N.eqb_spec (jit_registry_get_ptr reg i) 0) as [|_]; [done|].
  unfold handler_outcome, branch_args, enter_branch, leave_branch,
    unwind_branch, pop_mask, when_LLVM.
  destruct w as [s inv0]. 
  destruct Backend, (is_nullptr_t Result); simpl;
    unfold bind, try_catch, invoke, lift; simpl;
    destruct (func _ _ _) as [[tmp|e|] s']; simpl; try reflexivity;
    try (destruct (collect_indices _ _) as [out|e|]; simpl; try reflexivity);
    try (by destruct (_ <? _));
    destruct (ls_se_count st !! 0); reflexivity.
Qed.

(** What a successful run of the loop leaves in its locals. *)
Lemma for_each_record_Ok ids : ∀ st w st' w',
  for_each ids record_instance' st w = (Ok st', w') →
  let ws := branch_worlds ids st w in
  length ws = length (live_ids reg ids) ∧
  ls_j st' = ls_j st + length ws ∧
  ls_se_count st' =
    take (ls_j st) (ls_se_count st) ++ map scheduled ws
    ++ drop (ls_j st + length ws) (ls_se_count st) ∧
  invocations w' =
    invocations w ++
    map (λ i, (jit_registry_get_ptr reg i, branch_args)) (live_ids reg ids).
Proof.
  induction ids as [|i ids IH]; intros st w st' w' Hrun.
  - injection Hrun as <- <-. simpl.
    rewrite Nat.add_0_r, take_drop, app_nil_r. done.
  - rewrite for_each_cons in Hrun. simpl. unfold live_ids. rewrite filter_cons.
    destruct (decide (jit_registry_get_ptr reg i ≠ 0%N)) as [Hlive|Hnull].
    + rewrite record_instance_live in Hrun |- * by done. simpl in Hrun |- *.
      destruct (func _ _ _) as [[tmp|e|] s]; try done;
        [|unfold handler_outcome in Hrun; by destruct (_ !! 0)].
      destruct (if is_nullptr_t Result then _ else _) as [out|e|]; try done;
        [|unfold handler_outcome in Hrun; by destruct (_ !! 0)].
      destruct (Nat.ltb_spec (ls_j st) (length (ls_se_count st))) as [Hj|]; [|done].
      apply IH in Hrun as (Hlen & Hj' & Hse & Hinv). simpl in *.
      split; [by rewrite Hlen|]. split; [lia|]. split.
      * rewrite Hse. rewrite take_insert_lt by lia.
        rewrite drop_insert_lt by lia.
        destruct (lookup_lt_is_Some_2 _ _ Hj) as [x Hx].
        rewrite (take_S_r _ _ x) by done.
        rewrite insert_app_r_alt by (rewrite length_take; lia).
        rewrite length_take_le, Nat.sub_diag by lia. simpl.
        rewrite <-app_assoc. simpl. do 3 f_equal.
        -- unfold scheduled, leave_branch, pop_mask. simpl.
           by destruct Backend.
        -- f_equal. lia.
      * rewrite Hinv, <-app_assoc. done.
    + apply dec_stable in Hnull.
      rewrite record_instance_null in Hrun |- * by done. simpl.
      by apply IH in Hrun.
Qed.

(** The node is recorded last; nothing else of the backend changes but
    the variables, and no exception is raised. *)
Lemma record_node_outcome n_inst_actual self mask indices_in st w :
  n_inst_actual ≠ 0 →
  ∃ o w' self_masked,
    record_node n_inst_actual self mask indices_in st w = (o, w') ∧
    (∀ e, o ≠ Throw e) ∧
    js_vcalls (backend w') =
      js_vcalls (backend w) ++
      [VCallNode (CallLabel Domain name) self_masked n_inst_actual indices_in
         (ls_indices_out_all st) (ls_se_count st)
         (replicate (length (ls_indices_out_all st) / n_inst_actual) 0%N)] ∧
    js_prefix (backend w') = js_prefix (backend w) ∧
    js_postpone (backend w') = js_postpone (backend w) ∧
    js_masks (backend w') = js_masks (backend w) ∧
    js_side_effects (backend w') = js_side_effects (backend w) ∧
    invocations w' = invocations w.
Proof.
  intros Hn. unfold record_node.
  destruct (Nat.eqb_spec n_inst_actual 0) as [|_]; [done|].
  destruct (jit_var_mask_peek_returns w) as (top & w1 & E1 & Hg1).
  rewrite (bind_Ok _ _ _ _ _ E1).
  destruct (mask_and_returns top mask w1) as (m & w2 & E2 & Hg2 & _).
  rewrite (bind_Ok _ _ _ _ _ E2).
  destruct (self_and_returns self m w2) as (self_masked & w3 & E3 & Hg3).
  rewrite (bind_Ok _ _ _ _ _ E3).
  destruct (jit_var_vcall_returns reg (CallLabel Domain name) self_masked
              n_inst_actual indices_in (ls_indices_out_all st) (ls_se_count st)
              (replicate (length (ls_indices_out_all st) / n_inst_actual) 0%N) w3)
    as (out & w4 & E4 & Hg4 & _).
  rewrite (bind_Ok _ _ _ _ _ E4).
  pose proof (grows_trans _ _ _ Hg1 (grows_trans _ _ _ Hg2 Hg3)) as Hg.
  assert (∃ o, (if is_nullptr_t Result then ret (default_value Result)
                else match write_indices out (default_value Result) 0 with
                     | Some (result', _) => ret result'
                     | None => undef
                     end) w4 = (o, w4) ∧ ∀ e, o ≠ Throw e) as (o & -> & Ho).
  { destruct (is_nullptr_t Result); [by eexists|].
    destruct (write_indices _ _ _) as [[? ?]|]; by eexists. }
  exists o, w4, self_masked. split; [done|]. split; [done|].
  destruct Hg as [_ Hp Hf Hm Hs Hv Hi], Hg4 as [_ Hp4 Hf4 Hm4 Hs4 Hv4 Hi4].
  simpl in *. rewrite Hv4, Hp4, Hf4, Hm4, Hs4, Hi4, Hv, Hp, Hf, Hm, Hs, Hi.
  done.
Qed.

Lemma multi_instance_unfold n_inst_max n_inst_actual inst self mask w :
  n_inst_actual ≠ 1 →
  vcall_jit_record_impl Backend Domain reg Result set_mask
    name n_inst_max n_inst_actual inst func self mask args w =
  match collect_indices_pack [] args with
  | Ok indices_in =>
      match for_each (seq 1 n_inst_max) record_instance'
              (initial_loop_state n_inst_actual w) w with
      | (Ok st, w1) => record_node n_inst_actual self mask indices_in st w1
      | (Throw e, w1) => (Throw e, w1)
      | (Undef, w1) => (Undef, w1)
      end
  | Throw e => (Throw e, w)
  | Undef => (Undef, w)
  end.
Proof.
  intros Hn. unfold vcall_jit_record_impl.
  destruct (Nat.eqb_spec n_inst_actual 1) as [|_]; [done|].
  unfold bind at 1, lift.
  destruct (collect_indices_pack [] args) as [indices_in|e|]; try done.
Qed.

Lemma enter_branch_fields l s :
  js_prefix (enter_branch l s) = l :: js_prefix s ∧
  js_side_effects (enter_branch l s) = js_side_effects s ∧
  js_vcalls (enter_branch l s) = js_vcalls s.
Proof. unfold enter_branch, pop_mask. by destruct Backend. Qed.

Lemma leave_branch_fields flag_before s :
  js_prefix (leave_branch flag_before s) = tail (js_prefix s) ∧
  js_postpone (leave_branch flag_before s) = flag_before ∧
  js_side_effects (leave_branch flag_before s) = js_side_effects s ∧
  js_vcalls (leave_branch flag_before s) = js_vcalls s ∧
  js_masks (leave_branch flag_before s) = js_masks (pop_mask s).
Proof. unfold leave_branch, pop_mask. by destruct Backend. Qed.

Lemma unwind_branch_fields flag_before c0 s :
  js_prefix (unwind_branch flag_before c0 s) = tail (js_prefix s) ∧
  js_postpone (unwind_branch flag_before c0 s) = flag_before ∧
  js_side_effects (unwind_branch flag_before c0 s) = take c0 (js_side_effects s) ∧
  js_vcalls (unwind_branch flag_before c0 s) = js_vcalls s ∧
  js_masks (unwind_branch flag_before c0 s) = js_masks (pop_mask s).
Proof. unfold unwind_branch, pop_mask. by destruct Backend. Qed.

Lemma pop_mask_enter l s s' :
  js_masks s' = js_masks (enter_branch l s) →
  js_masks (pop_mask s') = js_masks s.
Proof. unfold enter_branch, pop_mask. destruct Backend; simpl; by intros ->. Qed.

(** C4. On the multi-instance path an argument with a trace-backed leaf
    whose reference is 0 makes the collection of the input indices raise
    the uninitialized-argument error; the recorder raises it with the
    state it was called in: no callback was invoked, no side effect
    recorded. *)
Theorem uninitialized_argument_up_front n_inst_max n_inst_actual inst self mask w :
  n_inst_actual ≠ 1 →
  0%N ∈ leaves_pack args →
  vcall_jit_record_impl Backend Domain reg Result set_mask
    name n_inst_max n_inst_actual inst func self mask args w
  = (Throw UninitializedArgument, w).
Proof.
  intros Hn Hin. rewrite multi_instance_unfold by done.
  by rewrite (collect_indices_pack_uninitialized _ _ Hin).
Qed.

Lemma record_instance_invariant w i st w1 :
  callback_frame func →
  loop_invariant w st w1 →
  match record_instance' i st w1 with
  | (Ok st', w') => loop_invariant w st' w'
  | (Throw e, w') => restored w w'
  | (Undef, _) => True
  end.
Proof.
  intros Hframe (Hp & Hf & Hm & Hv & Hs & Hse & Hj).
  destruct (decide (jit_registry_get_ptr reg i ≠ 0%N)) as [Hlive|Hnull];
    [|apply dec_stable in Hnull; by rewrite record_instance_null].
  rewrite record_instance_live by done. simpl.
  set (l := InstanceLabel Domain name (ls_j st)).
  pose proof (Hframe (jit_registry_get_ptr reg i) branch_args
                (enter_branch l (backend w1))) as (Hp' & Hm' & Hv' & Hs').
  simpl in *.
  destruct (enter_branch_fields l (backend w1)) as (Ep & Es & Ev).
  rewrite Ep in Hp'. rewrite Ev in Hv'. rewrite Es in Hs'.
  apply pop_mask_enter in Hm'.
  destruct (func _ _ _) as [[tmp|e|] s]; simpl in *; [| |done].
  - destruct (if is_nullptr_t Result then _ else _) as [out|e|]; [| |done].
    + destruct (Nat.ltb_spec (ls_j st) (length (ls_se_count st))); [|done].
      destruct (leave_branch_fields (js_postpone (backend w1)) s)
        as (Lp & Lf & Ls & Lv & Lm).
      unfold loop_invariant. simpl. rewrite Lp, Lf, Ls, Lv, Lm, Hp', Hv', Hm'.
      simpl. repeat split; try done.
      * by etrans.
      * rewrite list_lookup_insert_ne by lia. done.
      * lia.
    + unfold handler_outcome. rewrite Hse.
      destruct (unwind_branch_fields (js_postpone (backend w1)) (scheduled w) s)
        as (Up & Uf & Us & Uv & Um).
      unfold restored. simpl. rewrite Up, Uf, Us, Uv, Um, Hp', Hv', Hm'.
      simpl. repeat split; try done.
      assert (js_side_effects (backend w) `prefix_of` js_side_effects s)
        as [k ->] by by etrans.
      apply take_app_length.
  - unfold handler_outcome. rewrite Hse.
    destruct (unwind_branch_fields (js_postpone (backend w1)) (scheduled w) s)
      as (Up & Uf & Us & Uv & Um).
    unfold restored. simpl. rewrite Up, Uf, Us, Uv, Um, Hp', Hv', Hm'.
    simpl. repeat split; try done.
    assert (js_side_effects (backend w) `prefix_of` js_side_effects s)
      as [k ->] by by etrans.
    apply take_app_length.
Qed.

Lemma initial_loop_invariant n_inst_actual w :
  loop_invariant w (initial_loop_state n_inst_actual w) w.
Proof.
  unfold loop_invariant, initial_loop_state. simpl. repeat split; try done.
  rewrite list_lookup_insert_eq; [done|]. rewrite length_replicate. lia.
Qed.

Lemma record_instance_unwinds w i st w1 :
  flag_invariant w st w1 →
  match record_instance' i st w1 with
  | (Ok st', w') => flag_invariant w st' w'
  | (Throw e, w') => unwound w w'
  | (Undef, _) => True
  end.
Proof.
  intros (Hf & Hse & Hj).
  destruct (decide (jit_registry_get_ptr reg i ≠ 0%N)) as [Hlive|Hnull];
    [|apply dec_stable in Hnull; by rewrite record_instance_null].
  rewrite record_instance_live by done. simpl.
  set (l := InstanceLabel Domain name (ls_j st)).
  assert (∀ e, match handler_outcome e (js_postpone (backend w1)) (ls_se_count st)
                       (func (jit_registry_get_ptr reg i) branch_args
                          (enter_branch l (backend w1))).2
                       (invocations w1 ++ [(jit_registry_get_ptr reg i, branch_args)])
               with
               | (Ok st', w') => flag_invariant w st' w'
               | (Throw _, w') => unwound w w'
               | (Undef, _) => True
               end) as Hhandler.
  { intros e. unfold handler_outcome. rewrite Hse, Hf.
    by exists (jit_registry_get_ptr reg i), (enter_branch l (backend w1)). }
  destruct (func _ _ _) as [[tmp|e|] s]; simpl in *; [|apply Hhandler|done].
  destruct (if is_nullptr_t Result then _ else _) as [out|e|];
    [|apply Hhandler|done].
  destruct (Nat.ltb_spec (ls_j st) (length (ls_se_count st))); [|done].
  destruct (leave_branch_fields (js_postpone (backend w1)) s) as (_ & Lf & _).
  unfold flag_invariant. simpl. rewrite Lf.
  split; [done|]. split; [|lia]. by rewrite list_lookup_insert_ne by lia.
Qed.

Lemma initial_flag_invariant n_inst_actual w :
  flag_invariant w (initial_loop_state n_inst_actual w) w.
Proof.
  unfold flag_invariant, initial_loop_state. simpl. split; [done|]. split; [|lia].
  rewrite list_lookup_insert_eq; [done|]. rewrite length_replicate. lia.
Qed.


Lemma branch_worlds_nondecreasing :
  callback_keeps_log func →
  ∀ ids st w,
    Forall (λ c, scheduled w ≤ c) (map scheduled (branch_worlds ids st w)) ∧
    nondecreasing (map scheduled (branch_worlds ids st w)).
Proof.
  intros Hkeep. induction ids as [|i ids IH]; intros st w; simpl.
  { split; [constructor | by intros [|?] ??? ? ?]. }
  destruct (decide (jit_registry_get_ptr reg i ≠ 0%N)) as [Hlive|Hnull].
  - rewrite record_instance_live by done. simpl.
    set (l := InstanceLabel Domain name (ls_j st)).
    pose proof (Hkeep (jit_registry_get_ptr reg i) branch_args
                  (enter_branch l (backend w))) as Hle.
    destruct (enter_branch_fields l (backend w)) as (_ & Es & _).
    rewrite Es in Hle.
    assert (Forall (λ c, scheduled w ≤ c) (map scheduled []) ∧
            nondecreasing (map scheduled [])) as Hnil.
    { split; [constructor | by intros [|?] ??? ? ?]. }
    destruct (func _ _ _) as [[tmp|e|] s]; simpl in *;
      [|unfold handler_outcome; by destruct (_ !! 0)|done].
    destruct (if is_nullptr_t Result then _ else _) as [out|e|];
      [|unfold handler_outcome; by destruct (_ !! 0)|done].
    destruct (_ <? _); [|done]. simpl.
    match goal with |- context [branch_worlds ids ?st1 ?w1] =>
      destruct (IH st1 w1) as [Hall Hnd];
      assert (scheduled w ≤ scheduled w1) as Hle1
    end.
    { unfold scheduled at 2. simpl.
      by destruct (leave_branch_fields (js_postpone (backend w)) s)
        as (_ & _ & -> & _). }
    split.
    + constructor; [done|]. eapply Forall_impl; [exact Hall|].
      simpl. intros; lia.
    + by apply nondecreasing_cons.
  - apply dec_stable in Hnull. rewrite record_instance_null by done. apply IH.
Qed.

(** C7. After a successful multi-instance recording the table of
    side-effect counts handed to the jump table has [n_inst_actual + 1]
    entries: entry 0 is the number of side effects scheduled when the
    recorder was called, entry [j ≥ 1] is the number scheduled right after
    the branch of the [j]-th live implementation was recorded; and the
    table never decreases, callbacks removing no scheduled side effect. *)
Theorem side_effect_count_table n_inst_max n_inst_actual inst self mask w res w' :
  n_inst_actual ≠ 1 →
  n_inst_actual = count_live reg n_inst_max →
  vcall_jit_record_impl Backend Domain reg Result set_mask
    name n_inst_max n_inst_actual inst func self mask args w = (Ok res, w') →
  ∃ node,
    last (js_vcalls (backend w')) = Some node ∧
    length (vc_se_count node) = n_inst_actual + 1 ∧
    vc_se_count node =
      scheduled w ::
      map scheduled (branch_worlds (seq 1 n_inst_max)
                       (initial_loop_state n_inst_actual w) w) ∧
    (callback_keeps_log func → nondecreasing (vc_se_count node)).
Proof.
  intros Hn Hcount. rewrite multi_instance_unfold by done.
  destruct (collect_indices_pack [] args) as [indices_in|e'|]; [|done|done].
  destruct (for_each _ _ _ _) as [[st|e'|] w1] eqn:Hloop; [|done|done].
  destruct (decide (n_inst_actual = 0)) as [Hn0|Hn0]; [by rewrite Hn0|].
  destruct (record_node_outcome n_inst_actual self mask indices_in st w1 Hn0)
    as (o & w2 & sm & -> & Ho & Hv & _).
  intros [= -> <-]. eexists. split; [by rewrite Hv, last_snoc|]. simpl.
  apply for_each_record_Ok in Hloop as (Hlen & Hj & Hse & _). simpl in *.
  fold (count_live reg n_inst_max) in Hlen. rewrite <-Hcount in Hlen.
  assert (ls_se_count st =
          scheduled w :: map scheduled
            (branch_worlds (seq 1 n_inst_max)
               (initial_loop_state n_inst_actual w) w)) as ->.
  { rewrite Hse, Hlen. rewrite drop_ge by (rewrite length_insert, length_replicate; lia).
    rewrite app_nil_r. replace (n_inst_actual + 1) with (S n_inst_actual) by lia.
    done. }
  split; [simpl; rewrite length_map; lia|]. split; [done|]. intros Hkeep.
  destruct (branch_worlds_nondecreasing Hkeep (seq 1 n_inst_max)
              (initial_loop_state n_inst_actual w) w) as [Hall Hnd].
  by apply nondecreasing_cons.
Qed.

Lemma record_instance_output i st w :
  (is_nullptr_t Result = false → callback_typed func Result) →
  output_invariant st w →
  match record_instance' i st w with
  | (Ok st', w') => output_invariant st' w'
  | (Throw _, _) => True
  | (Undef, _) => True
  end.
Proof.
  intros Htyped [Hj Hlen].
  destruct (decide (jit_registry_get_ptr reg i ≠ 0%N)) as [Hlive|Hnull];
    [|apply dec_stable in Hnull; by rewrite record_instance_null].
  rewrite record_instance_live by done. simpl.
  destruct (func _ _ _) as [[tmp|e|] s] eqn:Hfunc; simpl;
    [|unfold handler_outcome; by destruct (_ !! 0)|done].
  destruct (is_nullptr_t Result) eqn:Hvoid.
  - destruct (_ <? _); [|done]. split; simpl; [lia|].
    rewrite Hlen, (is_nullptr_t_leaf_count _ Hvoid). lia.
  - destruct (collect_indices _ tmp) as [out|e|] eqn:Hc;
      [|unfold handler_outcome; by destruct (_ !! 0)|done].
    destruct (_ <? _); [|done]. split; simpl; [lia|].
    apply collect_indices_Ok in Hc as [-> _].
    rewrite length_app, Hlen.
    rewrite (has_shape_leaf_count tmp Result) by (eapply Htyped; eauto).
    nia.
Qed.

(** C8. After a successful multi-instance recording the output index table
    handed to the jump table holds, for each of the [n_inst_actual]
    callback invocations, as many references as the [Result] type has
    trace-backed leaves: its length is a multiple of [n_inst_actual], and
    the output buffer handed over has that length divided by
    [n_inst_actual]. *)
Theorem output_table_shape n_inst_max n_inst_actual inst self mask w res w' :
  n_inst_actual ≠ 1 →
  n_inst_actual = count_live reg n_inst_max →
  (is_nullptr_t Result = false → callback_typed func Result) →
  vcall_jit_record_impl Backend Domain reg Result set_mask
    name n_inst_max n_inst_actual inst func self mask args w = (Ok res, w') →
  ∃ node,
    last (js_vcalls (backend w')) = Some node ∧
    vc_n_inst node = n_inst_actual ∧
    length (vc_indices_out_all node) = n_inst_actual * leaf_count Result ∧
    (n_inst_actual | length (vc_indices_out_all node)) ∧
    length (vc_indices_out node) =
      length (vc_indices_out_all node) / n_inst_actual.
Proof.
  intros Hn Hcount Htyped. rewrite multi_instance_unfold by done.
  destruct (collect_indices_pack [] args) as [indices_in|e'|]; [|done|done].
  pose proof (for_each_invariant output_invariant (λ _ _, True)
                record_instance' (seq 1 n_inst_max)
                (λ i st w1, record_instance_output i st w1 Htyped)
                (initial_loop_state n_inst_actual w) w) as Hinv.
  destruct (for_each _ _ _ _) as [[st|e'|] w1] eqn:Hloop; [|done|done].
  destruct Hinv as [_ Hlen]; [by split|].
  destruct (decide (n_inst_actual = 0)) as [Hn0|Hn0]; [by rewrite Hn0|].
  destruct (record_node_outcome n_inst_actual self mask indices_in st w1 Hn0)
    as (o & w2 & sm & -> & Ho & Hv & _).
  intros [= -> <-]. eexists. split; [by rewrite Hv, last_snoc|]. simpl.
  apply for_each_record_Ok in Hloop as (Hws & Hj & _). simpl in *.
  fold (count_live reg n_inst_max) in Hws. rewrite <-Hcount in Hws.
  assert (length (ls_indices_out_all st) = n_inst_actual * leaf_count Result)
    as Hout by (rewrite Hlen, Hj, Hws; f_equal; lia).
  split; [done|]. split; [done|]. split.
  - exists (leaf_count Result). lia.
  - by rewrite length_replicate.
Qed.

(** Every branch of a successful multi-instance recording invokes the
    callback once, with the pointer of its implementation, in the order of
    the ids; the arguments are those of [branch_args]. *)
Lemma multi_instance_invocations n_inst_max n_inst_actual inst self mask w res w' :
  n_inst_actual ≠ 1 →
  vcall_jit_record_impl Backend Domain reg Result set_mask
    name n_inst_max n_inst_actual inst func self mask args w = (Ok res, w') →
  invocations w' =
  invocations w ++ map (λ base, (base, branch_args)) (live_ptrs reg n_inst_max).
Proof.
  intros Hn. rewrite multi_instance_unfold by done.
  destruct (collect_indices_pack [] args) as [indices_in|e'|]; [|done|done].
  destruct (for_each _ _ _ _) as [[st|e'|] w1] eqn:Hloop; [|done|done].
  destruct (decide (n_inst_actual = 0)) as [Hn0|Hn0]; [by rewrite Hn0|].
  destruct (record_node_outcome n_inst_actual self mask indices_in st w1 Hn0)
    as (o & w2 & sm & -> & Ho & _ & _ & _ & _ & _ & Hi).
  intros [= -> <-]. rewrite Hi.
  apply for_each_record_Ok in Hloop as (_ & _ & _ & ->).
  unfold live_ptrs. by rewrite map_map.
Qed.

(** C9, amended.  The fast path collects no indices: whatever the
    references in the arguments, the recorder raises the
    uninitialized-argument error there only if the callback itself does.
    The check is the one of [collect_indices], which the multi-instance
    path alone calls: on the arguments, up front, and on the value each
    callback returns.  The writer makes no check: it installs the
    references it is given, the reference 0 like any other. *)
Theorem uninitialized_check_only_multi_instance :
  (∀ base a s, (func base a s).1 ≠ Throw UninitializedArgument) →
  (∀ n_inst_max inst self mask w,
     (vcall_jit_record_impl Backend Domain reg Result set_mask
        name n_inst_max 1 inst func self mask args w).1
     ≠ Throw UninitializedArgument) ∧
  (∀ n_inst_max n_inst_actual inst self mask w,
     n_inst_actual ≠ 1 → 0%N ∈ leaves_pack args →
     vcall_jit_record_impl Backend Domain reg Result set_mask
       name n_inst_max n_inst_actual inst func self mask args w
     = (Throw UninitializedArgument, w)) ∧
  (∀ i st w tmp s c0,
     jit_registry_get_ptr reg i ≠ 0%N →
     is_nullptr_t Result = false →
     ls_se_count st !! 0 = Some c0 →
     func (jit_registry_get_ptr reg i) args
       (enter_branch (InstanceLabel Domain name (ls_j st)) (backend w))
     = (Ok tmp, s) →
     0%N ∈ leaves tmp →
     (record_instance' i st w).1 = Throw UninitializedArgument) ∧
  (∀ v, write_indices (leaves v) (clear_indices v) 0 = Some (v, length (leaves v))).
Proof.
  intros Hfunc. split; [|split; [|split]].
  - intros n_inst_max inst self mask w.
    assert (returns (nn <- neq_nullptr self ;; mask_and mask nn) w (λ _ _, True))
      as (mask2 & w2 & Hpre & _).
    { eapply returns_bind; [apply neq_nullptr_returns|]. intros nn w1 _.
      eapply returns_mono; [apply mask_and_returns|]. done. }
    rewrite (fast_path_unfold _ _ _ _ _ _ _ _ _ _ _ _ _ _ _ Hpre).
    set (margs := set_mask_pack set_mask (MaskArray mask2) args).
    specialize (Hfunc inst margs (backend w2)).
    destruct (is_nullptr_t Result); unfold bind at 1, invoke;
      destruct (func inst margs (backend w2)) as [[r|e|] s]; simpl in *;
      try done; try (by intros [= ->]).
    destruct (zero_returns Result 1 (World s (invocations w2 ++ [(inst, margs)])))
      as (z & w3 & Hz & _).
    rewrite (bind_Ok _ _ _ _ _ Hz). apply select_no_throw.
  - intros n_inst_max n_inst_actual inst self mask w Hn Hin.
  rewrite multi_instance_unfold by done.
  by rewrite (collect_indices_pack_uninitialized _ _ Hin).
  - intros i st w tmp s c0 Hlive Hvoid Hse Hcall Hin.
    rewrite record_instance_live by done. simpl.
    unfold branch_args. rewrite Hvoid, Hcall.
    rewrite (collect_indices_uninitialized _ _ Hin).
    unfold handler_outcome. by rewrite Hse.
  - intros v.
    pose proof (write_indices_leaves v (clear_indices v) [] []
                  (clear_indices_idemp v)) as H.
    by rewrite app_nil_r in H.
Qed.
End Loop.

(** ** The call driver *)

Lemma live_ids_snoc reg n :
  live_ids reg (seq 1 (S n)) =
  live_ids reg (seq 1 n) ++
  (if decide (jit_registry_get_ptr reg (S n) ≠ 0%N) then [S n] else []).
Proof.
  unfold live_ids. by rewrite seq_S, filter_app.
Qed.

(** The last live pointer of the ids [1..n] belongs to the highest live id. *)
Lemma last_live_ptr_highest reg n p :
  last (live_ptrs reg n) = Some p →
  ∃ i, 1 ≤ i ≤ n ∧ jit_registry_get_ptr reg i = p ∧ p ≠ 0%N ∧
       ∀ i', i < i' ≤ n → jit_registry_get_ptr reg i' = 0%N.
Proof.
  unfold live_ptrs. induction n as [|n IH]; [done|].
  rewrite live_ids_snoc, map_app.
  destruct (decide (jit_registry_get_ptr reg (S n) ≠ 0%N)) as [Hlive|Hnull]; simpl.
  - rewrite last_snoc. intros [= <-]. exists (S n).
    split; [lia|]. split; [done|]. split; [done|]. intros; lia.
  - rewrite app_nil_r. intros H. destruct (IH H) as (i & Hi & Hp & Hnz & Hhigh).
    exists i. split; [lia|]. split; [done|]. split; [done|].
    intros i' Hi'. destruct (decide (i' = S n)) as [->|]; [|apply Hhigh; lia].
    by apply dec_stable in Hnull.
Qed.

(** [select] invokes no callback. *)
Lemma select_pack_invocations m xs :
  Forall (λ x, ∀ b w, invocations (select m x b w).2 = invocations w) xs →
  ∀ ys w, invocations (select_pack m xs ys w).2 = invocations w.
Proof.
  induction 1 as [|x xs Hx _ IH]; intros [|y ys] w; try done.
  simpl. unfold bind at 1. specialize (Hx y w).
  destruct (select m x y w) as [[v|e'|] w1]; simpl in *; [|done|done].
  unfold bind at 1. specialize (IH ys w1).
  destruct (select_pack m xs ys w1) as [[vs|e'|] w2]; simpl in *; congruence.
Qed.

Lemma select_invocations m a : ∀ b w,
  invocations (select m a b w).2 = invocations w.
Proof.
  induction a as [es IH|d IH|x|fs IH| |] using value_ind';
    intros [ys|y|y|ys| |] w; try done.
  - rewrite select_nested. unfold bind.
    pose proof (select_pack_invocations m es IH ys w) as H.
    by destruct (select_pack m es ys w) as [[vs|e'|] w1].
  - simpl. unfold bind. specialize (IH y w).
    by destruct (select m d y w) as [[v|e'|] w1].
  - rewrite select_struct. unfold bind.
    pose proof (select_pack_invocations m fs IH ys w) as H.
    by destruct (select_pack m fs ys w) as [[vs|e'|] w1].
Qed.

Section Driver.
Variable Backend : JitBackend.
Variable Domain : string.
Variable reg : registry.
Variable Result : shape.
Variable set_mask : nat → nat → mask_arg → value → value.
Variable extract_mask : list value → N.
Variable placeholder : value → value.

(** The scan of the driver counts the live ids and remembers the pointer
    of the last one it meets. *)
Lemma scan_registry_spec n :
  scan_registry reg n =
  (default 0%N (last (live_ptrs reg n)), count_live reg n).
Proof.
  unfold scan_registry, live_ptrs, count_live.
  enough (∀ ids inst k,
            fold_left
              (λ '(inst, n_inst_actual) i,
                 let base := jit_registry_get_ptr reg i in
                 if (base =? 0)%N then (inst, n_inst_actual)
                 else (base, S n_inst_actual)) ids (inst, k) =
            (default inst (last (map (jit_registry_get_ptr reg) (live_ids reg ids))),
             k + length (live_ids reg ids))) as H by apply H.
  unfold live_ids. induction ids as [|i ids IH]; intros inst k; simpl.
  - by rewrite Nat.add_0_r.
  - rewrite filter_cons.
    destruct (N.eqb_spec (jit_registry_get_ptr reg i) 0) as [Hz|Hnz].
    + rewrite decide_False by (by intros []). apply IH.
    + rewrite decide_True by done. rewrite IH. simpl. f_equal; [|lia].
      change (?x :: ?l) with ([x] ++ l). rewrite last_app.
      by destruct (last _).
Qed.

(** The fast path invokes the callback exactly once, with the instance it
    was given, whatever the outcome. *)
Lemma fast_path_invocations name n_inst_max inst func self mask args w :
  ∃ mask2,
    invocations (vcall_jit_record_impl Backend Domain reg Result set_mask
                   name n_inst_max 1 inst func self mask args w).2 =
    invocations w ++ [(inst, set_mask_pack set_mask (MaskArray mask2) args)].
Proof.
  assert (returns (nn <- neq_nullptr self ;; mask_and mask nn) w
            (λ _ w2, invocations w2 = invocations w))
    as (mask2 & w2 & Hpre & Hinv).
  { eapply returns_bind; [apply neq_nullptr_returns|]. intros nn w1 (Hg1 & _).
    eapply returns_mono; [apply mask_and_returns|]. intros ? w2 (Hg2 & _).
    by rewrite (grows_invocations _ _ Hg2), (grows_invocations _ _ Hg1). }
  exists mask2. rewrite (fast_path_unfold _ _ _ _ _ _ _ _ _ _ _ _ _ _ _ Hpre).
  set (margs := set_mask_pack set_mask (MaskArray mask2) args).
  rewrite <-Hinv.
  destruct (is_nullptr_t Result); unfold bind at 1, invoke;
    destruct (func inst margs (backend w2)) as [[r|e|] s]; simpl; try done.
  destruct (zero_returns Result 1 (World s (invocations w2 ++ [(inst, margs)])))
    as (z & w3 & Hz & Hg & _).
  rewrite (bind_Ok _ _ _ _ _ Hz), select_invocations.
  by rewrite (grows_invocations _ _ Hg).
Qed.

Abbreviation vcall_jit_record' :=
  (vcall_jit_record Backend Domain reg Result set_mask extract_mask placeholder).

(** C10. The pointer the scan of the driver remembers is the pointer of
    the live implementation with the highest id (null when none is live),
    next to the count of the live ids; and when exactly one is live and
    the selector has lanes, it is the instance the fast path invokes the
    callback with. *)
Theorem remembered_instance_highest_live :
  (∀ n inst k,
     scan_registry reg n = (inst, k) →
     k = count_live reg n ∧
     (k = 0 → inst = 0%N) ∧
     (k ≠ 0 →
      ∃ i, 1 ≤ i ≤ n ∧ jit_registry_get_ptr reg i = inst ∧ inst ≠ 0%N ∧
           ∀ i', i < i' ≤ n → jit_registry_get_ptr reg i' = 0%N)) ∧
  (∀ name func self args w,
     count_live reg (jit_registry_get_max reg) = 1 →
     var_data (js_vars (backend w)) self ≠ [] →
     let inst := (scan_registry reg (jit_registry_get_max reg)).1 in
     vcall_jit_record' name func self args w =
     vcall_jit_record_impl Backend Domain reg Result set_mask name
       (jit_registry_get_max reg) 1 inst func self
       (extract_mask args) (map placeholder args) w ∧
     ∃ mask2,
       invocations (vcall_jit_record' name func self args w).2 =
       invocations w ++
       [(inst, set_mask_pack set_mask (MaskArray mask2) (map placeholder args))]).
Proof.
  split.
  - intros n inst k. rewrite scan_registry_spec. intros [= <- <-].
    split; [done|]. unfold count_live, live_ptrs. split.
    + intros H. apply nil_length_inv in H. by rewrite H.
    + intros H.
      destruct (last (live_ptrs reg n)) as [p|] eqn:Hlast.
      * unfold live_ptrs in Hlast. rewrite Hlast. simpl.
        by apply last_live_ptr_highest.
      * apply last_None in Hlast. unfold live_ptrs in Hlast.
        apply fmap_nil_inv in Hlast. by rewrite Hlast in H.
  - intros name func self args w Hcount Hself inst.
    assert (vcall_jit_record' name func self args w =
            vcall_jit_record_impl Backend Domain reg Result set_mask name
              (jit_registry_get_max reg) 1 inst func self
              (extract_mask args) (map placeholder args) w) as Heq.
    { unfold vcall_jit_record, inst. rewrite scan_registry_spec, Hcount.
      unfold jit_var_size. unfold bind, gets. simpl.
      destruct (var_data (js_vars (backend w)) self); done. }
    split; [done|]. rewrite Heq. apply fast_path_invocations.
Qed.

(** C2 (as the code has it). When no implementation is live, or the
    selector has no lanes, the driver returns [zero<Result>(self_size)]: a
    value of type [Result] whose arrays are new variables of [self_size]
    lanes, all zero; it invokes no callback and creates no jump-table
    node. *)
Theorem record_call_nothing_to_record name func self args w :
  live_ptrs reg (jit_registry_get_max reg) = [] ∨
  var_data (js_vars (backend w)) self = [] →
  let self_size := length (var_data (js_vars (backend w)) self) in
  ∃ z w',
    vcall_jit_record' name func self args w = (Ok z, w') ∧
    has_shape z Result = true ∧
    Forall (λ r, var_data (js_vars (backend w')) r = replicate self_size 0%Z)
           (leaves z) ∧
    invocations w' = invocations w ∧
    js_vcalls (backend w') = js_vcalls (backend w).
Proof.
  intros Hempty self_size.
  destruct (zero_returns Result self_size w) as (z & w' & Hz & Hg & Hshape & Hl).
  exists z, w'. split; [|split; [done|split; [|split; apply Hg]]].
  - unfold vcall_jit_record. rewrite scan_registry_spec.
    unfold jit_var_size, bind, gets. simpl. fold self_size.
    replace ((count_live reg (jit_registry_get_max reg) =? 0) || (self_size =? 0))
      with true; [done|].
    symmetry. apply orb_true_iff. destruct Hempty as [H|H].
    + left. apply Nat.eqb_eq. unfold count_live. unfold live_ptrs in H.
      apply fmap_nil_inv in H. by rewrite H.
    + right. apply Nat.eqb_eq. unfold self_size. by rewrite H.
  - eapply Forall_impl; [exact Hl|]. by intros r [_ ?].
Qed.
End Driver.

(** ** Examples *)

Lemma example_func_frame : callback_frame example_func.
Proof.
  intros base a s. unfold example_func.
  destruct (base =? 102)%N; simpl; repeat split; by apply prefix_app_r.
Defined.

Lemma example_func_keeps_log : callback_keeps_log example_func.
Proof.
  intros base a s. unfold example_func.
  destruct (base =? 102)%N; simpl; rewrite length_app; lia.
Defined.

Lemma example_func_typed : callback_typed example_func example_result.
Proof.
  intros base a s tmp s'. unfold example_func.
  destruct (base =? 102)%N; [done|]. by intros [= <- _].
Defined.

Lemma example_func_initialized base a s :
  (example_func base a s).1 ≠ Throw UninitializedArgument.
Proof. unfold example_func. by destruct (base =? 102)%N. Defined.

Abbreviation example_impl reg Result n_inst_actual args :=
  (vcall_jit_record_impl LLVM "Base" reg Result set_mask_last "f" 4
     n_inst_actual 104 example_func 1 2 args example_world).


Lemma uninitialized_argument_up_front_witness :
  example_impl registry_two example_result 2 [VJit 0; VJit 2]
  = (Throw UninitializedArgument, example_world).
Proof.
  apply (uninitialized_argument_up_front LLVM "Base" registry_two example_result
           set_mask_last "f" example_func [VJit 0; VJit 2] 4 2 104 1 2
           example_world); [lia | simpl; constructor].
Defined.

Lemma side_effect_count_table_witness :
  ∃ node,
    last (js_vcalls (backend (example_impl registry_two example_result 2
                                example_args).2)) = Some node ∧
    length (vc_se_count node) = 2 + 1 ∧
    vc_se_count node =
      scheduled example_world ::
      map scheduled
        (branch_worlds LLVM "Base" registry_two example_result set_mask_last "f"
           example_func example_args (seq 1 4)
           (initial_loop_state 2 example_world) example_world) ∧
    nondecreasing (vc_se_count node).
Proof.
  destruct (side_effect_count_table LLVM "Base" registry_two example_result
              set_mask_last "f" example_func example_args 4 2 104 1 2
              example_world (VStruct [VJit 11; VOther; VJit 12])
              (example_impl registry_two example_result 2 example_args).2)
    as (node & Hlast & Hlen & Hse & Hmono);
    [lia | reflexivity | vm_compute; reflexivity |].
  exists node. repeat split; [exact Hlast | exact Hlen | exact Hse |].
  exact (Hmono example_func_keeps_log).
Defined.

Lemma output_table_shape_witness :
  ∃ node,
    last (js_vcalls (backend (example_impl registry_two example_result 2
                                example_args).2)) = Some node ∧
    vc_n_inst node = 2 ∧
    length (vc_indices_out_all node) = 2 * leaf_count example_result ∧
    (2 | length (vc_indices_out_all node)) ∧
    length (vc_indices_out node) = length (vc_indices_out_all node) / 2.
Proof.
  apply (output_table_shape LLVM "Base" registry_two example_result
           set_mask_last "f" example_func example_args 4 2 104 1 2 example_world
           (VStruct [VJit 11; VOther; VJit 12]));
    [lia | reflexivity | intros _; exact example_func_typed
    | vm_compute; reflexivity].
Defined.

Lemma uninitialized_check_only_multi_instance_witness :
  (example_impl registry_one example_result 1 [VJit 0; VJit 2]).1
  ≠ Throw UninitializedArgument.
Proof.
  apply (proj1 (uninitialized_check_only_multi_instance LLVM "Base" registry_one
                  example_result set_mask_last "f" example_func
                  [VJit 0; VJit 2] example_func_initialized)).
Defined.

(** C9, as stated, does not hold of the writer.  Given an output buffer
    that holds the reference 0, the writer-side traversal installs it and
    returns, without any error; it is the collector that raises on the
    value so written. *)
Lemma writer_makes_no_check_counterexample :
  write_indices [3; 0; 9]%N
    (default_value (TStruct [TJit; TOther; TNested 2 (TDiff TJit)])) 0
  = Some (VStruct [VJit 3; VOther; VNested [VDiff (VJit 0); VDiff (VJit 9)]], 3) ∧
  0%N ∈ leaves (VStruct [VJit 3; VOther; VNested [VDiff (VJit 0); VDiff (VJit 9)]]) ∧
  collect_indices []
    (VStruct [VJit 3; VOther; VNested [VDiff (VJit 0); VDiff (VJit 9)]])
  = Throw UninitializedArgument.
Proof.
  split; [reflexivity|]. split; [|reflexivity].
  simpl. apply elem_of_cons. right. apply elem_of_cons. by left.
Qed.


Lemma remembered_instance_highest_live_witness :
  ∃ mask2,
    invocations
      (vcall_jit_record LLVM "Base" registry_one example_result set_mask_last
         extract_mask_last id "f" example_func 1 example_args example_world).2 =
    [(104%N, set_mask_pack set_mask_last (MaskArray mask2) (map id example_args))].
Proof.
  apply (proj2 (remembered_instance_highest_live LLVM "Base" registry_one
                  example_result set_mask_last extract_mask_last id)
           "f" example_func 1%N example_args example_world);
    [reflexivity | done].
Defined.

Lemma record_call_nothing_to_record_witness :
  ∃ z w',
    vcall_jit_record LLVM "Base" [0; 0]%N example_result set_mask_last
      extract_mask_last id "f" example_func 1 example_args example_world
    = (Ok z, w') ∧
    has_shape z example_result = true ∧
    Forall (λ r, var_data (js_vars (backend w')) r = replicate 4 0%Z) (leaves z) ∧
    invocations w' = invocations example_world ∧
    js_vcalls (backend w') = js_vcalls (backend example_world).
Proof.
  apply (record_call_nothing_to_record LLVM "Base" [0; 0]%N example_result
           set_mask_last extract_mask_last id "f" example_func 1 example_args
           example_world).
  left. reflexivity.
Defined.

Abbreviation example_record_call reg w :=
  (vcall_jit_record LLVM "Base" reg example_result set_mask_last
     extract_mask_last id "f" example_func 1 example_args w).

(** C2, as stated, does not hold.  With every lane of the selector null,
    or with every lane of the active mask false, the driver still records:
    with one live implementation the callback is invoked, with two a
    jump-table node is created as well. *)
Lemma record_call_null_lanes_counterexample :
  Forall (λ x, x = 0%Z) (var_data (js_vars (backend null_selector_world)) 1) ∧
  invocations (example_record_call registry_one null_selector_world).2
    ≠ invocations null_selector_world ∧
  invocations (example_record_call registry_two null_selector_world).2
    ≠ invocations null_selector_world ∧
  js_vcalls (backend (example_record_call registry_two null_selector_world).2)
    ≠ js_vcalls (backend null_selector_world) ∧
  Forall (λ x, x = 0%Z) (var_data (js_vars (backend false_mask_world)) 2) ∧
  extract_mask_last example_args = 2%N ∧
  invocations (example_record_call registry_one false_mask_world).2
    ≠ invocations false_mask_world ∧
  js_vcalls (backend (example_record_call registry_two false_mask_world).2)
    ≠ js_vcalls (backend false_mask_world).
Proof.
  split; [by repeat constructor|].
  split; [by vm_compute|]. split; [by vm_compute|]. split; [by vm_compute|].
  split; [by repeat constructor|].
  split; [reflexivity|]. split; by vm_compute.
Qed.

(** C3, evaluated.  With two live implementations and a result that is not
    void, both branches invoke the callback with the arguments as they were
    passed, the mask argument included; [set_mask] with the literal [true]
    would have replaced it, as the branches of a void call do. *)
Lemma multi_instance_nonvoid_keeps_mask :
  invocations (example_impl registry_two example_result 2 example_args).2
    = [(101%N, example_args); (104%N, example_args)] ∧
  set_mask_pack set_mask_last (MaskLiteral true) example_args
    = [VJit 3; VOther] ∧
  invocations (example_impl registry_two TNullptr 2 example_args).2
    = [(101%N, [VJit 3; VOther]); (104%N, [VJit 3; VOther])].
Proof. by vm_compute. Qed.

(** * Further properties of the code *)

(** ** The collector and the writer on any input *)

Lemma collect_indices_pack_initialized_aux vs :
  Forall (λ v, ∀ indices, 0%N ∉ leaves v →
                collect_indices indices v = Ok (indices ++ leaves v)) vs →
  ∀ indices, 0%N ∉ leaves_pack vs →
    collect_indices_pack indices vs = Ok (indices ++ leaves_pack vs).
Proof.
  unfold leaves_pack.
  induction 1 as [|v vs Hv _ IH]; intros indices Hnz; simpl in *.
  - by rewrite app_nil_r.
  - rewrite elem_of_app in Hnz.
    rewrite Hv by tauto. rewrite IH by tauto. by rewrite app_assoc.
Qed.

(** Without a zero reference the collector appends the references of the
    value to the accumulator. *)
Lemma collect_indices_initialized v : ∀ indices,
  0%N ∉ leaves v → collect_indices indices v = Ok (indices ++ leaves v).
Proof.
  induction v as [es IH|d IH|i|fs IH| |] using value_ind'; intros indices Hnz.
  - rewrite collect_indices_nested.
    by apply (collect_indices_pack_initialized_aux es IH).
  - by apply IH.
  - simpl in *. destruct (N.eqb_spec i 0) as [->|]; [|done].
    destruct Hnz. by apply list_elem_of_singleton.
  - rewrite collect_indices_struct.
    by apply (collect_indices_pack_initialized_aux fs IH).
  - simpl. by rewrite app_nil_r.
  - simpl. by rewrite app_nil_r.
Qed.

Lemma collect_indices_pack_initialized vs indices :
  0%N ∉ leaves_pack vs →
  collect_indices_pack indices vs = Ok (indices ++ leaves_pack vs).
Proof.
  apply collect_indices_pack_initialized_aux, Forall_forall.
  intros v _. apply collect_indices_initialized.
Qed.

Lemma write_indices_pack_slice_aux indices vs :
  Forall (λ v0, ∀ offset,
            match write_indices indices v0 offset with
            | Some (v, offset') =>
                offset' = offset + length (leaves v0) ∧
                length (leaves v) = length (leaves v0) ∧
                leaves v = take (length (leaves v0)) (drop offset indices) ∧
                clear_indices v = clear_indices v0
            | None =>
                0 < length (leaves v0) ∧
                length indices < offset + length (leaves v0)
            end) vs →
  ∀ offset,
    match write_indices_pack indices vs offset with
    | Some (vs', offset') =>
        offset' = offset + length (leaves_pack vs) ∧
        length (leaves_pack vs') = length (leaves_pack vs) ∧
        leaves_pack vs' = take (length (leaves_pack vs)) (drop offset indices) ∧
        map clear_indices vs' = map clear_indices vs
    | None =>
        0 < length (leaves_pack vs) ∧
        length indices < offset + length (leaves_pack vs)
    end.
Proof.
  unfold leaves_pack.
  induction 1 as [|v0 vs Hv _ IH]; intros offset.
  - simpl. by rewrite Nat.add_0_r.
  - rewrite write_indices_pack_cons. specialize (Hv offset).
    destruct (write_indices indices v0 offset) as [[v offset1]|]; simpl.
    + destruct Hv as (-> & Hlen & Hv & Hc). specialize (IH (offset + length (leaves v0))).
      destruct (write_indices_pack indices vs _) as [[vs' offset2]|]; simpl.
      * destruct IH as (-> & Hlen' & Hvs & Hcs).
        rewrite !length_app, Hlen, Hlen', Hv, Hvs, Hc, Hcs.
        repeat split; [lia|].
        by rewrite <-take_take_drop, drop_drop.
      * rewrite length_app. lia.
    + rewrite length_app. lia.
Qed.

(** What the writer does at any offset: it reads the segment of [indices]
    that starts there, one reference per leaf, or runs past the end. *)
Lemma write_indices_slice indices v0 : ∀ offset,
  match write_indices indices v0 offset with
  | Some (v, offset') =>
      offset' = offset + length (leaves v0) ∧
      length (leaves v) = length (leaves v0) ∧
      leaves v = take (length (leaves v0)) (drop offset indices) ∧
      clear_indices v = clear_indices v0
  | None =>
      0 < length (leaves v0) ∧ length indices < offset + length (leaves v0)
  end.
Proof.
  induction v0 as [es IH|d IH|i|fs IH| |] using value_ind'; intros offset.
  - rewrite write_indices_nested.
    pose proof (write_indices_pack_slice_aux indices es IH offset) as H.
    destruct (write_indices_pack indices es offset) as [[es' offset']|]; [|done].
    destruct H as (? & ? & ? & ?). simpl. repeat (split; [done|]). by f_equal.
  - simpl. specialize (IH offset).
    destruct (write_indices indices d offset) as [[d' offset']|]; [|done].
    destruct IH as (? & ? & ? & ?). simpl. repeat (split; [done|]). by f_equal.
  - simpl. destruct (indices !! offset) as [index|] eqn:E.
    + simpl. rewrite (drop_S _ _ _ E). repeat split. lia.
    + apply lookup_ge_None in E. lia.
  - rewrite write_indices_struct.
    pose proof (write_indices_pack_slice_aux indices fs IH offset) as H.
    destruct (write_indices_pack indices fs offset) as [[fs' offset']|]; [|done].
    destruct H as (? & ? & ? & ?). simpl. repeat (split; [done|]). by f_equal.
  - simpl. by rewrite Nat.add_0_r.
  - simpl. by rewrite Nat.add_0_r.
Qed.

(** X1. The collector appends the references of the leaves to the
    accumulator, in traversal order and after what the accumulator held,
    unless one of them is the reference 0: then it raises the
    uninitialized-argument error.  It raises nothing else.  The same holds
    of the fold over an argument pack. *)
Theorem collector_appends_or_raises (indices : list N) (v : value)
    (vs : list value) :
  collect_indices indices v =
    (if decide (0%N ∈ leaves v) then Throw UninitializedArgument
     else Ok (indices ++ leaves v)) ∧
  collect_indices_pack indices vs =
    (if decide (0%N ∈ leaves_pack vs) then Throw UninitializedArgument
     else Ok (indices ++ leaves_pack vs)).
Proof.
  split.
  - destruct (decide (0%N ∈ leaves v)).
    + by apply collect_indices_uninitialized.
    + by apply collect_indices_initialized.
  - destruct (decide (0%N ∈ leaves_pack vs)).
    + by apply collect_indices_pack_uninitialized.
    + by apply collect_indices_pack_initialized.
Qed.

(** X2. The writer fails (reads past the end of [indices]) exactly when
    the value has a leaf and fewer than [offset + k] references are there,
    [k] being the number of leaves.  Otherwise it returns the value with
    its leaves replaced, in traversal order, by the [k] references from
    [offset] on, and the offset advanced by [k]; the structure is kept,
    the references the value held before are dropped, and references
    beyond [offset + k] are not looked at. *)
Theorem writer_reads_segment (indices : list N) (v0 : value) (offset : nat) :
  let k := length (leaves v0) in
  (write_indices indices v0 offset = None ↔
   0 < k ∧ length indices < offset + k) ∧
  (∀ v offset',
     write_indices indices v0 offset = Some (v, offset') →
     offset' = offset + k ∧
     leaves v = take k (drop offset indices) ∧
     clear_indices v = clear_indices v0).
Proof.
  intros k. subst k.
  pose proof (write_indices_slice indices v0 offset) as H.
  destruct (write_indices indices v0 offset) as [[v offset']|].
  - destruct H as (-> & Hlen & Hv & Hc). split.
    + split; [done|]. intros [Hk Hlt].
      rewrite Hv, length_take, length_drop in Hlen. lia.
    + by intros ? ? [= <- <-].
  - split; [done|]. by intros ? ? [=].
Qed.

Lemma writer_reads_segment_witness :
  write_indices [7; 3]%N roundtrip_example 0 = None.
Proof.
  destruct (writer_reads_segment [7; 3]%N roundtrip_example 0) as [H _].
  apply H. simpl. lia.
Defined.

(** X3. Writing, then collecting: the collector reads back from the
    written value the very references the writer took from [indices], and
    raises when the reference 0 was among them, which the writer installs
    without complaint. *)
Theorem write_collect_roundtrip (indices : list N) (v0 v : value)
    (offset offset' : nat) (acc : list N) :
  write_indices indices v0 offset = Some (v, offset') →
  let written := take (offset' - offset) (drop offset indices) in
  leaves v = written ∧
  collect_indices acc v =
    (if decide (0%N ∈ written) then Throw UninitializedArgument
     else Ok (acc ++ written)).
Proof.
  intros Hw written. subst written.
  pose proof (write_indices_slice indices v0 offset) as H.
  rewrite Hw in H. destruct H as (-> & _ & Hv & _).
  replace (offset + length (leaves v0) - offset) with (length (leaves v0)) by lia.
  split; [done|]. rewrite <-Hv.
  destruct (decide (0%N ∈ leaves v)).
  - by apply collect_indices_uninitialized.
  - by apply collect_indices_initialized.
Qed.

Lemma write_collect_roundtrip_witness :
  leaves (VStruct [VJit 3; VOther; VNested [VDiff (VJit 0); VDiff (VJit 9)]])
    = [3; 0; 9]%N ∧
  collect_indices [1]%N
    (VStruct [VJit 3; VOther; VNested [VDiff (VJit 0); VDiff (VJit 9)]])
    = Throw UninitializedArgument.
Proof.
  exact (write_collect_roundtrip [5; 3; 0; 9; 8]%N roundtrip_example
           (VStruct [VJit 3; VOther; VNested [VDiff (VJit 0); VDiff (VJit 9)]])
           1 4 [1]%N eq_refl).
Defined.

(** ** [select] on values of one type *)

Lemma known_grows w w' r :
  grows w w' → known (js_vars (backend w)) r → known (js_vars (backend w')) r.
Proof. intros Hg Hk. by destruct (grows_known _ _ _ Hg Hk). Qed.

Lemma select_pack_typed m xs :
  Forall (λ x, ∀ t y w,
            has_shape x t = true → has_shape y t = true →
            returns (select m x y) w
              (λ res w', grows w w' ∧ has_shape res t = true ∧
                         Forall (known (js_vars (backend w'))) (leaves res))) xs →
  ∀ ts ys w,
    has_shapes xs ts → has_shapes ys ts →
    returns (select_pack m xs ys) w
      (λ l w', grows w w' ∧ has_shapes l ts ∧
               Forall (known (js_vars (backend w'))) (concat (map leaves l))).
Proof.
  induction 1 as [|x xs Hx _ IH]; intros ts ys w Hxs Hys.
  - inversion Hxs; subst. inversion Hys; subst. simpl.
    apply returns_ret. split; [apply grows_refl|]. split; constructor.
  - inversion Hxs as [|? t ? ts' Hxt Hxs']; subst.
    inversion Hys as [|y ? ys' ? Hyt Hys']; subst. simpl in *.
    eapply returns_bind; [by apply (Hx t y w)|].
    intros v w1 (Hg1 & Hv & Hl1).
    eapply returns_bind; [by apply (IH ts' ys' w1)|].
    intros vs w2 (Hg2 & Hvs & Hl2). apply returns_ret.
    split; [by eapply grows_trans|]. split; [by constructor|].
    simpl. apply Forall_app. split; [|done].
    eapply Forall_impl; [exact Hl1|]. intros r. by apply known_grows.
Qed.

(** [select] on two values of one static type returns a value of that
    type, every array of which is a variable of the backend, and creates
    variables only. *)
Lemma select_typed m x : ∀ t y w,
  has_shape x t = true → has_shape y t = true →
  returns (select m x y) w
    (λ res w', grows w w' ∧ has_shape res t = true ∧
               Forall (known (js_vars (backend w'))) (leaves res)).
Proof.
  induction x as [es IH|d IH|x|fs IH| |] using value_ind';
    intros t z w Hr Hz;
    destruct t as [n e|t'| |ts| |]; try done;
    destruct z as [ys|y|y|ys| |]; try done.
  - rewrite select_nested.
    apply has_shape_nested_iff in Hr, Hz.
    eapply returns_bind; [by eapply select_pack_typed|].
    intros l w' (Hg & Hl & Hml). apply returns_ret.
    split; [done|]. split; [by apply has_shape_nested_iff | done].
  - simpl in *. eapply returns_bind; [by apply (IH t' y w)|].
    intros v w' (Hg & Hv & Hl). by apply returns_ret.
  - simpl in *. eapply returns_bind; [apply select_array_returns|].
    intros r w' (Hg & Hk & Hd). apply returns_ret.
    split; [done|]. split; [done|]. simpl. by constructor.
  - rewrite select_struct.
    apply has_shape_struct_iff in Hr, Hz.
    eapply returns_bind; [by eapply select_pack_typed|].
    intros l w' (Hg & Hl & Hml). apply returns_ret.
    split; [done|]. split; [by apply has_shape_struct_iff | done].
  - apply returns_ret. split; [apply grows_refl|]. split; [done|constructor].
  - apply returns_ret. split; [apply grows_refl|]. split; [done|constructor].
Qed.

(** [select(mask2, r, zero<Result>())] of the fast path. *)
Lemma zero_select_typed Result m r w :
  has_shape r Result = true →
  returns (z <- zero Result 1 ;; select m r z) w
    (λ res w', grows w w' ∧ has_shape res Result = true ∧
               Forall (known (js_vars (backend w'))) (leaves res)).
Proof.
  intros Hr. eapply returns_bind; [apply zero_returns|].
  intros z w1 (Hg1 & Hz & _).
  eapply returns_mono; [by apply (select_typed m r Result z w1)|].
  intros res w' (Hg & Hres & Hl). split; [by eapply grows_trans | done].
Qed.

(** The combined mask of the fast path is always built, and building it
    creates variables only. *)
Lemma combined_mask_grows self mask w :
  returns (nn <- neq_nullptr self ;; mask_and mask nn) w
    (λ mask2 w2, grows w w2 ∧ known (js_vars (backend w2)) mask2).
Proof.
  eapply returns_bind; [apply neq_nullptr_returns|].
  intros nn w1 (Hg1 & _ & _).
  eapply returns_mono; [apply mask_and_returns|].
  intros mask2 w2 (Hg2 & Hk & _). split; [by eapply grows_trans | done].
Qed.

(** ** The fast path and the state of the backend *)

Section FastPathFrame.
Variable Backend : JitBackend.
Variable Domain : string.
Variable reg : registry.
Variable Result : shape.
Variable set_mask : nat → nat → mask_arg → value → value.

Abbreviation vcall_jit_record_impl_in :=
  (vcall_jit_record_impl_in Backend Domain reg Result set_mask).
Abbreviation callback_world := (callback_world Result).

(** With the callback evaluated first, and for a void call in either
    order, the recorder is [vcall_jit_record_impl]. *)
Lemma vcall_jit_record_impl_callback_first order name n_inst_max n_inst_actual
    inst func self mask args :
  order = CallbackFirst ∨ is_nullptr_t Result = true →
  vcall_jit_record_impl_in order name n_inst_max n_inst_actual inst
    func self mask args =
  vcall_jit_record_impl Backend Domain reg Result set_mask name n_inst_max
    n_inst_actual inst func self mask args.
Proof.
  intros H. unfold vcall_jit_record_impl_in, vcall_jit_record_impl.
  destruct (n_inst_actual =? 1); [|done].
  destruct H as [->| ->]; [by destruct (is_nullptr_t Result) | done].
Qed.

Lemma callback_world_callback_first order w2 :
  order = CallbackFirst ∨ is_nullptr_t Result = true →
  callback_world order w2 = w2.
Proof.
  unfold callback_world. intros [->| ->]; [done | by destruct order].
Qed.

(** With the zero value created first: the value, and what is left to
    do once it is there. *)
Lemma fast_path_zero_first name n_inst_max inst (func : Func) self mask
    args w mask2 w2 :
  is_nullptr_t Result = false →
  (nn <- neq_nullptr self ;; mask_and mask nn) w = (Ok mask2, w2) →
  ∃ z,
    zero Result 1 w2 = (Ok z, callback_world ZeroFirst w2) ∧
    grows w2 (callback_world ZeroFirst w2) ∧
    has_shape z Result = true ∧
    Forall (zero_leaf 1 (callback_world ZeroFirst w2)) (leaves z) ∧
    vcall_jit_record_impl_in ZeroFirst name n_inst_max 1 inst func self mask
      args w =
    (r <- invoke func inst (set_mask_pack set_mask (MaskArray mask2) args) ;;
     select mask2 r z) (callback_world ZeroFirst w2).
Proof.
  intros Hvoid Hpre. unfold callback_world. rewrite Hvoid.
  destruct (zero_returns Result 1 w2) as (z & w3 & Hz & Hg & Hshape & Hl).
  exists z. rewrite Hz. simpl. repeat (split; [done|]).
  unfold vcall_jit_record_impl_in. rewrite Nat.eqb_refl.
  rewrite (bind_Ok _ _ _ _ _ Hpre), Hvoid.
  by rewrite (bind_Ok _ _ _ _ _ Hz).
Qed.

(** Before it invokes the callback, the fast path creates variables
    only, in either order. *)
Lemma callback_world_grows order self mask w mask2 w2 :
  (nn <- neq_nullptr self ;; mask_and mask nn) w = (Ok mask2, w2) →
  grows w w2 ∧ grows w2 (callback_world order w2) ∧
  known (js_vars (backend w2)) mask2.
Proof.
  intros Hpre.
  destruct (combined_mask_grows self mask w) as (mask2' & w2' & Hpre' & Hg2 & Hk).
  rewrite Hpre in Hpre'. injection Hpre' as <- <-.
  split; [done|]. split; [|done]. unfold callback_world.
  destruct order; [apply grows_refl|].
  destruct (is_nullptr_t Result); [apply grows_refl|].
  by destruct (zero_returns Result 1 w2) as (z & w3 & -> & Hg & _).
Qed.

(** X4. With exactly one live implementation an exception of the callback
    leaves the recorder as it is, from the backend as the callback left
    it: nothing is unwound, side effects the callback scheduled stay in
    the log.  This holds in either order of evaluation.  The callback ran
    in the backend of the call, to which only variables were added (those
    of the combined mask and, when the zero value is created first,
    those of the zero value): no label was pushed, the flag was not set,
    no mask was pushed. *)
Theorem fast_path_callback_raises order name n_inst_max inst (func : Func)
    self mask args w mask2 w2 e s3 :
  let margs := set_mask_pack set_mask (MaskArray mask2) args in
  let w_in := callback_world order w2 in
  (nn <- neq_nullptr self ;; mask_and mask nn) w = (Ok mask2, w2) →
  func inst margs (backend w_in) = (Throw e, s3) →
  grows w w_in ∧
  vcall_jit_record_impl_in order name n_inst_max 1 inst func self mask args w =
  (Throw e, World s3 (invocations w ++ [(inst, margs)])).
Proof.
  intros margs w_in Hpre Hfunc. subst w_in.
  destruct (callback_world_grows order self mask w mask2 w2 Hpre)
    as (Hg2 & Hgin & _).
  pose proof (grows_trans _ _ _ Hg2 Hgin) as Hg.
  split; [done|].
  assert (invoke func inst margs (callback_world order w2) =
          (Throw e, World s3 (invocations w ++ [(inst, margs)]))) as Hinv.
  { unfold invoke. by rewrite Hfunc, (grows_invocations _ _ Hg). }
  assert ((order = CallbackFirst ∨ is_nullptr_t Result = true) ∨
          (order = ZeroFirst ∧ is_nullptr_t Result = false))
    as [Hfirst|[-> Hvoid]] by (destruct order, (is_nullptr_t Result); auto).
  - rewrite (callback_world_callback_first _ _ Hfirst) in Hinv.
    rewrite vcall_jit_record_impl_callback_first by done.
    rewrite (fast_path_unfold _ _ _ _ _ _ _ _ _ _ _ _ _ _ _ Hpre). fold margs.
    destruct (is_nullptr_t Result); by rewrite (bind_Throw _ _ _ _ _ Hinv).
  - destruct (fast_path_zero_first name n_inst_max inst func self mask args
                w mask2 w2 Hvoid Hpre) as (z & _ & _ & _ & _ & ->).
    fold margs. by rewrite (bind_Throw _ _ _ _ _ Hinv).
Qed.

(** X5. With exactly one live implementation and a callback that returns
    (a value of the type [Result], unless the call is void), the recorder
    returns, and after the callback it creates variables only: no label,
    flag, mask or side effect is touched and no jump-table node is
    created.  This holds in either order of evaluation; with the
    callback evaluated first the variables of the zero value are among
    those created after it. *)
Theorem fast_path_records_no_node order name n_inst_max inst (func : Func)
    self mask args w mask2 w2 r s3 :
  let margs := set_mask_pack set_mask (MaskArray mask2) args in
  let w_in := callback_world order w2 in
  (nn <- neq_nullptr self ;; mask_and mask nn) w = (Ok mask2, w2) →
  func inst margs (backend w_in) = (Ok r, s3) →
  (is_nullptr_t Result = false → has_shape r Result = true) →
  grows w w_in ∧
  ∃ res w',
    vcall_jit_record_impl_in order name n_inst_max 1 inst func self mask args w
      = (Ok res, w') ∧
    grows (World s3 (invocations w ++ [(inst, margs)])) w' ∧
    js_vcalls (backend w') = js_vcalls s3.
Proof.
  intros margs w_in Hpre Hfunc Hshape. subst w_in.
  destruct (callback_world_grows order self mask w mask2 w2 Hpre)
    as (Hg2 & Hgin & _).
  pose proof (grows_trans _ _ _ Hg2 Hgin) as Hg.
  split; [done|].
  assert (invoke func inst margs (callback_world order w2) =
          (Ok r, World s3 (invocations w ++ [(inst, margs)]))) as Hinv.
  { unfold invoke. by rewrite Hfunc, (grows_invocations _ _ Hg). }
  assert (∀ res w',
            grows (World s3 (invocations w ++ [(inst, margs)])) w' →
            vcall_jit_record_impl_in order name n_inst_max 1 inst func self
              mask args w = (Ok res, w') →
            ∃ res w',
              vcall_jit_record_impl_in order name n_inst_max 1 inst func self
                mask args w = (Ok res, w') ∧
              grows (World s3 (invocations w ++ [(inst, margs)])) w' ∧
              js_vcalls (backend w') = js_vcalls s3) as Hdone.
  { intros res w' Hgw Hrun. exists res, w'. split; [done|]. split; [done|].
    apply (grows_vcalls _ _ Hgw). }
  assert ((order = CallbackFirst ∨ is_nullptr_t Result = true) ∨
          (order = ZeroFirst ∧ is_nullptr_t Result = false))
    as [Hfirst|[-> Hvoid]] by (destruct order, (is_nullptr_t Result); auto).
  - rewrite (callback_world_callback_first _ _ Hfirst) in Hinv.
    rewrite vcall_jit_record_impl_callback_first in Hdone |- * by done.
    rewrite (fast_path_unfold _ _ _ _ _ _ _ _ _ _ _ _ _ _ _ Hpre) in Hdone |- *.
    fold margs in Hdone |- *.
    destruct (is_nullptr_t Result); rewrite (bind_Ok _ _ _ _ _ Hinv) in Hdone |- *.
    + eapply Hdone; [apply grows_refl | reflexivity].
    + destruct (zero_select_typed Result mask2 r
                  (World s3 (invocations w ++ [(inst, margs)])))
        as (res & w' & Hrun & Hgw & _); [by apply Hshape|].
      by eapply Hdone.
  - destruct (fast_path_zero_first name n_inst_max inst func self mask args
                w mask2 w2 Hvoid Hpre) as (z & _ & _ & Hz & _ & Hrun).
    rewrite Hrun in Hdone |- *. fold margs in Hdone |- *.
    rewrite (bind_Ok _ _ _ _ _ Hinv) in Hdone |- *.
    destruct (select_typed mask2 r Result z
                (World s3 (invocations w ++ [(inst, margs)])))
      as (res & w' & Hsel & Hgw & _); [by apply Hshape | done |].
    by eapply Hdone.
Qed.

(** The last step of the fast path: [select] against a zero value, under
    the combined mask. *)
Lemma select_combined_mask vars self mask mask2 r z w3 :
  known (js_vars (backend w3)) mask2 →
  var_data (js_vars (backend w3)) mask2 = combined_mask vars self mask →
  has_shape r Result = true → has_shape z Result = true →
  Forall (zero_leaf 1 w3) (leaves z) →
  ∃ res w',
    select mask2 r z w3 = (Ok res, w') ∧
    invocations w' = invocations w3 ∧
    has_shape res Result = true ∧
    Forall (λ rr, ∀ i,
              lane (var_data vars self) i = 0%Z ∨
              lane (var_data vars mask) i = 0%Z →
              lane (var_data (js_vars (backend w')) rr) i = 0%Z)
           (leaves res).
Proof.
  intros Hk Hd Hr Hz Hzl.
  destruct (select_returns mask2 (combined_mask vars self mask) 1 r Result z w3
              Hr Hz Hk Hd Hzl) as (res & w' & Hsel & Hg & Hres & Hl).
  exists res, w'. split; [done|]. split; [apply Hg|]. split; [done|].
  eapply Forall_impl; [exact Hl|]. intros rr [_ Hrr] i Hi.
  apply Hrr. by apply combined_mask_false.
Qed.

(** X16. The fast path in either order of evaluation: whether the
    callback or the zero value is evaluated first, the callback is
    invoked exactly once, with the combined mask put into the arguments,
    and every array of the result is zero in each lane whose selector is
    null or whose active mask is false.  The callback is taken to create
    variables only and to return a value of the type [Result]. *)
Theorem fast_path_masks_in_either_order order name n_inst_max inst (func : Func)
    self mask args w mask2 w2 r s3 :
  let margs := set_mask_pack set_mask (MaskArray mask2) args in
  let vars := js_vars (backend w) in
  let w_in := callback_world order w2 in
  known vars mask →
  (nn <- neq_nullptr self ;; mask_and mask nn) w = (Ok mask2, w2) →
  func inst margs (backend w_in) = (Ok r, s3) →
  js_vars (backend w_in) `prefix_of` js_vars s3 →
  (is_nullptr_t Result = false → has_shape r Result = true) →
  ∃ res w',
    vcall_jit_record_impl_in order name n_inst_max 1 inst func self mask args w
      = (Ok res, w') ∧
    invocations w' = invocations w ++ [(inst, margs)] ∧
    (is_nullptr_t Result = false → has_shape res Result = true) ∧
    Forall (λ rr, ∀ i,
              lane (var_data vars self) i = 0%Z ∨
              lane (var_data vars mask) i = 0%Z →
              lane (var_data (js_vars (backend w')) rr) i = 0%Z)
           (leaves res).
Proof.
  intros margs vars w_in Hmask Hpre Hfunc Hext Hshape. subst vars w_in.
  destruct (combined_mask_returns self mask w Hmask)
    as (mask2' & w2' & Hpre' & _ & Hk2 & Hd2).
  rewrite Hpre in Hpre'. injection Hpre' as <- <-.
  destruct (callback_world_grows order self mask w mask2 w2 Hpre)
    as (Hg2 & Hgin & _).
  pose proof (grows_trans _ _ _ Hg2 Hgin) as Hg.
  assert (invoke func inst margs (callback_world order w2) =
          (Ok r, World s3 (invocations w ++ [(inst, margs)]))) as Hinv.
  { unfold invoke. by rewrite Hfunc, (grows_invocations _ _ Hg). }
  set (w3 := World s3 (invocations w ++ [(inst, margs)])) in *.
  destruct (grows_known _ _ _ Hgin Hk2) as [Hkin Hdin].
  assert (known (js_vars (backend w3)) mask2 ∧
          var_data (js_vars (backend w3)) mask2 =
          combined_mask (js_vars (backend w)) self mask) as [Hk3 Hd3].
  { split; [by eapply known_prefix|].
    rewrite <-Hd2, <-Hdin. by apply var_data_prefix. }
  assert ((order = CallbackFirst ∨ is_nullptr_t Result = true) ∨
          (order = ZeroFirst ∧ is_nullptr_t Result = false))
    as [Hfirst|[-> Hvoid]] by (destruct order, (is_nullptr_t Result); auto).
  - rewrite (callback_world_callback_first _ _ Hfirst) in Hinv.
    rewrite vcall_jit_record_impl_callback_first by done.
    rewrite (fast_path_unfold _ _ _ _ _ _ _ _ _ _ _ _ _ _ _ Hpre). fold margs.
    destruct (is_nullptr_t Result) eqn:Hvoid; rewrite (bind_Ok _ _ _ _ _ Hinv).
    + eexists _, _. split; [reflexivity|]. split; [done|]. split; [done|].
      by destruct Result.
    + destruct (zero_returns Result 1 w3) as (z & w4 & Hz & Hg4 & Hzs & Hzl).
      rewrite (bind_Ok _ _ _ _ _ Hz).
      destruct (grows_known _ _ _ Hg4 Hk3) as [Hk4 Hd4].
      destruct (select_combined_mask (js_vars (backend w)) self mask mask2 r z w4)
        as (res & w' & Hsel & Hi & Hres & Hl); auto; [congruence|].
      exists res, w'. split; [done|].
      split; [by rewrite Hi, (grows_invocations _ _ Hg4)|]. by split.
  - destruct (fast_path_zero_first name n_inst_max inst func self mask args
                w mask2 w2 Hvoid Hpre) as (z & _ & _ & Hzs & Hzl & ->).
    fold margs. rewrite (bind_Ok _ _ _ _ _ Hinv).
    destruct (select_combined_mask (js_vars (backend w)) self mask mask2 r z w3)
      as (res & w' & Hsel & Hi & Hres & Hl); auto.
    { eapply Forall_impl; [exact Hzl|]. intros rr [Hkr Hdr].
      split; [by eapply known_prefix|].
      rewrite <-Hdr. by apply var_data_prefix. }
    exists res, w'. split; [done|]. split; [by rewrite Hi|]. by split.
Qed.

End FastPathFrame.

Abbreviation example_fast_path order reg inst :=
  (vcall_jit_record_impl_in LLVM "Base" reg example_result set_mask_last order
     "f" 4 1 inst example_func 1 2 example_args example_world).

Lemma fast_path_callback_raises_witness :
  let w' := (example_fast_path ZeroFirst registry_raising 102).2 in
  js_side_effects (backend w') = [7; 102]%N ∧
  length (js_vars (backend w')) = 7.
Proof.
  destruct (fast_path_callback_raises LLVM "Base" registry_raising
              example_result set_mask_last ZeroFirst "f" 4 102%N example_func
              1%N 2%N example_args example_world 5%N
              ((nn <- neq_nullptr 1 ;; mask_and 2 nn) example_world).2
              (Exception 5)
              (set_side_effects (λ l, l ++ [102%N])
                 (backend (callback_world example_result ZeroFirst
                             ((nn <- neq_nullptr 1 ;; mask_and 2 nn)
                                example_world).2))))
    as [_ H]; [reflexivity..|].
  intros w'. subst w'. rewrite H. split; reflexivity.
Defined.

Lemma fast_path_records_no_node_witness :
  ∃ res w',
    example_fast_path ZeroFirst registry_one 104 = (Ok res, w') ∧
    js_vcalls (backend w') = [] ∧
    js_side_effects (backend w') = [7; 104]%N ∧
    js_prefix (backend w') = [] ∧ js_masks (backend w') = [] ∧
    [[1; 2; 4; 0]; [1; 0; 1; 1]; [10; 20; 30; 40]; [1; 1; 1; 0]; [1; 0; 1; 0];
     [0]; [0]; [5]]%Z `prefix_of` js_vars (backend w').
Proof.
  destruct (fast_path_records_no_node LLVM "Base" registry_one
              example_result set_mask_last ZeroFirst "f" 4 104%N example_func
              1%N 2%N example_args example_world 5%N
              ((nn <- neq_nullptr 1 ;; mask_and 2 nn) example_world).2
              (VStruct [VJit 3; VOther; VJit 8])
              (example_func 104%N [VJit 3; VJit 5]
                 (backend (callback_world example_result ZeroFirst
                             ((nn <- neq_nullptr 1 ;; mask_and 2 nn)
                                example_world).2))).2)
    as (_ & res & w' & Hrun & Hg & Hv); [reflexivity..|].
  exists res, w'. split; [exact Hrun|].
  split; [by rewrite Hv|].
  split; [by rewrite (grows_side_effects _ _ Hg)|].
  split; [by rewrite (grows_prefix _ _ Hg)|].
  split; [by rewrite (grows_masks _ _ Hg)|].
  exact (grows_vars _ _ Hg).
Defined.

Lemma fast_path_masks_in_either_order_witness :
  ∃ res w',
    example_fast_path ZeroFirst registry_one 104 = (Ok res, w') ∧
    invocations w' = [(104%N, [VJit 3; VJit 5])] ∧
    Forall (λ rr, lane (var_data (js_vars (backend w')) rr) 1 = 0%Z ∧
                  lane (var_data (js_vars (backend w')) rr) 3 = 0%Z)
           (leaves res).
Proof.
  destruct (fast_path_masks_in_either_order LLVM "Base" registry_one
              example_result set_mask_last ZeroFirst "f" 4 104%N example_func
              1%N 2%N example_args example_world 5%N
              ((nn <- neq_nullptr 1 ;; mask_and 2 nn) example_world).2
              (VStruct [VJit 3; VOther; VJit 8])
              (example_func 104%N [VJit 3; VJit 5]
                 (backend (callback_world example_result ZeroFirst
                             ((nn <- neq_nullptr 1 ;; mask_and 2 nn)
                                example_world).2))).2)
    as (res & w' & Hrun & Hi & _ & Hl).
  - split; [done | simpl; lia].
  - reflexivity.
  - reflexivity.
  - by exists [[5%Z]].
  - reflexivity.
  - exists res, w'. split; [exact Hrun|]. split; [exact Hi|].
    eapply Forall_impl; [exact Hl|]. intros rr Hrr.
    split; apply Hrr; [by right | by left].
Defined.

(** ** The multi-instance recorder on any outcome *)

Section Recording.
Variable Backend : JitBackend.
Variable Domain : string.
Variable reg : registry.
Variable Result : shape.
Variable set_mask : nat → nat → mask_arg → value → value.
Variable name : string.
Variable func : Func.
Variable args : list value.

Abbreviation record_instance' :=
  (record_instance Backend Domain reg Result set_mask name func args).
Abbreviation branch_args := (branch_args Result set_mask args).
Abbreviation enter_branch := (enter_branch Backend).
Abbreviation leave_branch := (leave_branch Backend).
Abbreviation handler_outcome := (handler_outcome Backend).
Abbreviation record_node := (record_node Domain reg Result name).
Abbreviation vcall_jit_record_impl' :=
  (vcall_jit_record_impl Backend Domain reg Result set_mask name).

(** The callbacks the loop has invoked when it ends, however it ends. *)
Lemma for_each_record_invocations ids : ∀ st w, ∃ k,
  invocations (for_each ids record_instance' st w).2 =
  invocations w ++
  map (λ i, (jit_registry_get_ptr reg i, branch_args)) (take k (live_ids reg ids)) ∧
  (∀ st', (for_each ids record_instance' st w).1 = Ok st' →
          length (live_ids reg ids) ≤ k).
Proof.
  induction ids as [|i ids IH]; intros st w.
  - exists 0. simpl. by rewrite app_nil_r.
  - rewrite for_each_cons. unfold live_ids. rewrite filter_cons.
    destruct (decide (jit_registry_get_ptr reg i ≠ 0%N)) as [Hlive|Hnull].
    + rewrite record_instance_live by done. simpl.
      assert (∀ o w1,
                invocations w1 = invocations w ++ [(jit_registry_get_ptr reg i, branch_args)] →
                (∀ st', o ≠ Ok st') →
                ∃ k, invocations w1 =
                     invocations w ++
                     map (λ i, (jit_registry_get_ptr reg i, branch_args))
                       (take k (i :: filter (λ i, jit_registry_get_ptr reg i ≠ 0%N) ids)) ∧
                     ∀ st' : loop_state, o = Ok st' →
                       length (i :: filter (λ i, jit_registry_get_ptr reg i ≠ 0%N) ids) ≤ k)
        as Hstop.
      { intros o w1 -> Ho. exists 1. split; [done|]. intros st' ->. by destruct (Ho st'). }
      assert (∀ e s, ∃ o w1,
                handler_outcome e (js_postpone (backend w)) (ls_se_count st) s
                  (invocations w ++ [(jit_registry_get_ptr reg i, branch_args)]) =
                (o, w1) ∧
                invocations w1
                = invocations w ++ [(jit_registry_get_ptr reg i, branch_args)] ∧
                ∀ st', o ≠ Ok st') as Hh.
      { intros e s. unfold handler_outcome.
        destruct (ls_se_count st !! 0); by eexists _, _. }
      destruct (func _ _ _) as [[tmp|e|] s].
      * destruct (if is_nullptr_t Result then _ else _) as [out|e|].
        -- destruct (_ <? _).
           ++ destruct (IH (LoopState (S (ls_j st))
                              (<[ls_j st := length (js_side_effects s)]> (ls_se_count st)) out)
                          (World (leave_branch (js_postpone (backend w)) s)
                             (invocations w ++ [(jit_registry_get_ptr reg i, branch_args)])))
                as (k & Hk & Hall).
              exists (S k). simpl. rewrite Hk. simpl. rewrite <-app_assoc.
              split; [done|]. intros st' Hst'. apply Hall in Hst'.
              unfold live_ids in Hst'. lia.
           ++ by apply Hstop.
        -- destruct (Hh e s) as (o & w1 & -> & Hi & Ho).
           destruct o as [st'| |]; [by destruct (Ho st')|..]; by apply Hstop.
        -- by apply Hstop.
      * destruct (Hh e s) as (o & w1 & -> & Hi & Ho).
           destruct o as [st'| |]; [by destruct (Ho st')|..]; by apply Hstop.
      * by apply Hstop.
    + apply dec_stable in Hnull. rewrite record_instance_null by done.
      apply IH.
Qed.


(** X7. When a multi-instance recording returns and the callbacks kept
    to the discipline of the backend, the prefix stack and the mask stack
    are as they were at the call, the flag has its value of the call
    (this whatever the callbacks do), scheduled side effects were only
    added, and exactly one jump-table node was appended.  The node
    carries the label of the call, the number of implementations, and as
    inputs the references of the arguments, in traversal order, none of
    them 0. *)
Theorem recording_success_frame n_inst_max n_inst_actual inst self mask w res w' :
  n_inst_actual ≠ 1 →
  callback_frame func →
  vcall_jit_record_impl' n_inst_max n_inst_actual inst func self mask args w
    = (Ok res, w') →
  js_prefix (backend w') = js_prefix (backend w) ∧
  js_postpone (backend w') = js_postpone (backend w) ∧
  js_masks (backend w') = js_masks (backend w) ∧
  js_side_effects (backend w) `prefix_of` js_side_effects (backend w') ∧
  ∃ node,
    js_vcalls (backend w') = js_vcalls (backend w) ++ [node] ∧
    vc_label node = CallLabel Domain name ∧
    vc_n_inst node = n_inst_actual ∧
    vc_indices_in node = leaves_pack args ∧
    0%N ∉ leaves_pack args.
Proof.
  intros Hn Hframe Hrun. rewrite multi_instance_unfold in Hrun by done.
  destruct (collect_indices_pack [] args) as [indices_in|e|] eqn:Hin; [|done..].
  apply collect_indices_pack_Ok in Hin as [-> Hnz]. simpl in Hrun.
  pose proof (for_each_invariant (loop_invariant w) (λ _, restored w)
                record_instance' (seq 1 n_inst_max)) as HI.
  specialize (HI (λ i s w1, record_instance_invariant Backend Domain reg Result
                              set_mask name func args w i s w1 Hframe)
                 _ _ (initial_loop_invariant n_inst_actual w)).
  destruct (for_each _ _ _ _) as [[st|e|] w1]; [|done..].
  destruct (decide (n_inst_actual = 0)) as [->|Hn0]; [done|].
  destruct (record_node_outcome Domain reg Result name n_inst_actual self mask
              (leaves_pack args) st w1 Hn0)
    as (o & w2 & sm & E & _ & Hv & Hp & Hf & Hm & Hs & _).
  rewrite E in Hrun. injection Hrun as -> <-.
  destruct HI as (Ip & If & Im & Iv & Is & _).
  rewrite Hp, Hf, Hm, Hs, Hv, Iv.
  repeat (split; [done|]).
  eexists. split; [done|]. simpl. repeat (split; [done|]).
  intros H0. rewrite Forall_forall in Hnz. by apply (Hnz _ H0).
Qed.

End Recording.


Lemma recording_success_frame_witness :
  let w' := (example_impl registry_two example_result 2 example_args).2 in
  js_prefix (backend w') = js_prefix (backend example_world) ∧
  js_postpone (backend w') = js_postpone (backend example_world) ∧
  js_masks (backend w') = js_masks (backend example_world) ∧
  js_side_effects (backend example_world) `prefix_of` js_side_effects (backend w') ∧
  ∃ node,
    js_vcalls (backend w') = js_vcalls (backend example_world) ++ [node] ∧
    vc_label node = CallLabel "Base" "f" ∧
    vc_n_inst node = 2 ∧
    vc_indices_in node = leaves_pack example_args ∧
    0%N ∉ leaves_pack example_args.
Proof.
  apply (recording_success_frame LLVM "Base" registry_two example_result
           set_mask_last "f" example_func example_args 4 2 104%N 1%N 2%N
           example_world (VStruct [VJit 11; VOther; VJit 12])
           (example_impl registry_two example_result 2 example_args).2);
    [lia | exact example_func_frame | vm_compute; reflexivity].
Defined.

(** ** The output table, row by row *)

(** Row [k] of a table of rows of [n] entries each. *)
Lemma concat_row {A} (n : nat) (ls : list (list A)) : ∀ k l,
  Forall (λ l, length l = n) ls →
  ls !! k = Some l →
  take n (drop (k * n) (concat ls)) = l.
Proof.
  induction ls as [|l0 ls IH]; intros k l Hall Hk; [done|].
  apply Forall_cons in Hall as [Hl0 Hall]. destruct k as [|k]; simpl in *.
  - injection Hk as ->. by apply take_app_length'.
  - rewrite drop_app_add' by done. by apply IH.
Qed.

Section OutputTable.
Variable Backend : JitBackend.
Variable Domain : string.
Variable reg : registry.
Variable Result : shape.
Variable set_mask : nat → nat → mask_arg → value → value.
Variable name : string.
Variable func : Func.
Variable args : list value.

Abbreviation record_instance' :=
  (record_instance Backend Domain reg Result set_mask name func args).
Abbreviation branch_values :=
  (branch_values Backend Domain reg Result set_mask name func args).
Abbreviation vcall_jit_record_impl' :=
  (vcall_jit_record_impl Backend Domain reg Result set_mask name).

(** What a successful run of the loop has collected. *)
Lemma for_each_record_values ids : ∀ st w st' w',
  for_each ids record_instance' st w = (Ok st', w') →
  let vals := branch_values ids st w in
  length vals = length (live_ids reg ids) ∧
  Forall (λ tmp, ∃ base a s s', func base a s = (Ok tmp, s')) vals ∧
  ls_indices_out_all st' =
    ls_indices_out_all st ++
    (if is_nullptr_t Result then [] else concat (map leaves vals)).
Proof.
  induction ids as [|i ids IH]; intros st w st' w' Hrun.
  - injection Hrun as <- <-. simpl.
    split; [done|]. split; [done|]. destruct (is_nullptr_t Result); by rewrite app_nil_r.
  - rewrite for_each_cons in Hrun. simpl. unfold live_ids. rewrite filter_cons.
    destruct (decide (jit_registry_get_ptr reg i ≠ 0%N)) as [Hlive|Hnull].
    + rewrite record_instance_live in Hrun |- * by done. simpl in Hrun |- *.
      destruct (func _ _ _) as [[tmp|e|] s] eqn:Hf; try done;
        [|unfold handler_outcome in Hrun; by destruct (_ !! 0)].
      destruct (if is_nullptr_t Result then _ else _) as [out|e|] eqn:Hout; try done;
        [|unfold handler_outcome in Hrun; by destruct (_ !! 0)].
      destruct (Nat.ltb_spec (ls_j st) (length (ls_se_count st))) as [Hj|]; [|done].
      apply IH in Hrun as (Hlen & Hall & Hres). simpl in *.
      split; [by rewrite Hlen|]. split; [constructor; eauto|].
      rewrite Hres. destruct (is_nullptr_t Result).
      * injection Hout as <-. done.
      * apply collect_indices_Ok in Hout as [-> _]. by rewrite <-app_assoc.
    + apply dec_stable in Hnull.
      rewrite record_instance_null in Hrun |- * by done. simpl.
      by apply IH in Hrun.
Qed.

(** X8. When a multi-instance recording returns, the output table of
    the jump-table node is the concatenation, in the order of the ids, of
    the references of the values the callbacks returned (it is empty for
    a void call): with callbacks that return values of the type
    [Result], row [k] of the table holds the references of the value that
    the callback of the [k]-th live implementation returned. *)
Theorem output_table_rows n_inst_max n_inst_actual inst self mask w res w' :
  n_inst_actual ≠ 1 →
  vcall_jit_record_impl' n_inst_max n_inst_actual inst func self mask args w
    = (Ok res, w') →
  let vals := branch_values (seq 1 n_inst_max)
                (initial_loop_state n_inst_actual w) w in
  length vals = count_live reg n_inst_max ∧
  ∃ node,
    last (js_vcalls (backend w')) = Some node ∧
    vc_indices_out_all node =
      (if is_nullptr_t Result then [] else concat (map leaves vals)) ∧
    (is_nullptr_t Result = false →
     callback_typed func Result →
     ∀ k tmp, vals !! k = Some tmp →
       take (leaf_count Result)
         (drop (k * leaf_count Result) (vc_indices_out_all node)) = leaves tmp).
Proof.
  intros Hn Hrun vals. rewrite multi_instance_unfold in Hrun by done.
  destruct (collect_indices_pack [] args) as [indices_in|e|]; [|done..].
  destruct (for_each _ _ _ _) as [[st|e|] w1] eqn:Hloop; [|done..].
  apply for_each_record_values in Hloop as (Hlen & Hall & Hout).
  fold vals in Hlen, Hall, Hout. simpl in Hout.
  split; [done|].
  destruct (decide (n_inst_actual = 0)) as [->|Hn0]; [done|].
  destruct (record_node_outcome Domain reg Result name n_inst_actual self mask
              indices_in st w1 Hn0)
    as (o & w2 & sm & E & _ & Hv & _).
  rewrite E in Hrun. injection Hrun as -> <-.
  eexists. split; [by rewrite Hv, last_snoc|]. simpl.
  split; [done|]. intros Hvoid Htyped k tmp Hk. rewrite Hout, Hvoid.
  apply concat_row.
  - apply Forall_map. eapply Forall_impl; [exact Hall|].
    intros v (base & a & s & s' & Hf). simpl.
    apply has_shape_leaf_count. by eapply Htyped.
  - by rewrite list_lookup_fmap, Hk.
Qed.

End OutputTable.

Lemma output_table_rows_witness :
  let vals :=
    branch_values LLVM "Base" registry_two example_result set_mask_last "f"
      example_func example_args (seq 1 4) (initial_loop_state 2 example_world)
      example_world in
  length vals = count_live registry_two 4 ∧
  ∃ node,
    last (js_vcalls (backend (example_impl registry_two example_result 2
                                example_args).2)) = Some node ∧
    vc_indices_out_all node = concat (map leaves vals) ∧
    ∀ k tmp, vals !! k = Some tmp →
      take 2 (drop (k * 2) (vc_indices_out_all node)) = leaves tmp.
Proof.
  destruct (output_table_rows LLVM "Base" registry_two example_result
              set_mask_last "f" example_func example_args 4 2 104%N 1%N 2%N
              example_world (VStruct [VJit 11; VOther; VJit 12])
              (example_impl registry_two example_result 2 example_args).2)
    as (Hlen & node & Hlast & Hout & Hrows);
    [lia | vm_compute; reflexivity |].
  split; [exact Hlen|]. exists node.
  split; [exact Hlast|]. split; [exact Hout|].
  exact (Hrows eq_refl example_func_typed).
Defined.

(** ** The driver: defined behaviour and the value returned *)

Lemma has_shape_default_value t : has_shape (default_value t) t = true.
Proof.
  induction t as [n e IH|d IH| |fs IH| |] using shape_ind'; simpl; try done.
  - rewrite length_replicate, Nat.eqb_refl. simpl.
    induction n as [|n IHn]; simpl; [done|]. by rewrite IH.
  - induction IH as [|f fs Hf _ IHfs]; simpl; [done|]. by rewrite Hf.
Qed.

(** Typing looks at the structure of a value only, not at its
    references. *)
Lemma clear_default_has_shape t : ∀ v,
  clear_indices v = default_value t → has_shape v t = true.
Proof.
  induction t as [n e IH|d IH| |fs IH| |] using shape_ind';
    intros [es|d0|i|fs0| |] H; try done; simpl in *.
  - injection H as H. revert n H.
    induction es as [|x es IHes]; intros [|n] H; try done.
    injection H as Hx Hes. specialize (IHes n Hes).
    apply andb_prop in IHes as [Hlen Hall]. simpl.
    apply Nat.eqb_eq in Hlen. rewrite Hlen, Nat.eqb_refl, (IH _ Hx). done.
  - injection H as H. by apply IH.
  - injection H as H. revert fs0 H.
    induction IH as [|f fs Hf _ IHfs]; intros [|x fs0] H; try done.
    injection H as Hx Hfs0. by rewrite (Hf _ Hx), (IHfs _ Hfs0).
Qed.

Lemma default_value_leaf_count t : length (leaves (default_value t)) = leaf_count t.
Proof. apply has_shape_leaf_count, has_shape_default_value. Qed.

(** Writing into a default-constructed value: with at least as many
    references as the type has arrays the writer returns a value of the
    type, whose references are the first of the buffer. *)
Lemma write_indices_default t out res offset' :
  write_indices out (default_value t) 0 = Some (res, offset') →
  has_shape res t = true ∧ leaves res = take (leaf_count t) out.
Proof.
  intros Hw. pose proof (write_indices_slice out (default_value t) 0) as H.
  rewrite Hw, default_value_leaf_count in H. destruct H as (_ & _ & Hl & Hc).
  split; [|done]. apply clear_default_has_shape. rewrite Hc.
  apply has_shape_default, has_shape_default_value.
Qed.

Lemma write_indices_default_defined t out :
  leaf_count t ≤ length out →
  write_indices out (default_value t) 0 ≠ None.
Proof.
  intros Hlen Hw. pose proof (write_indices_slice out (default_value t) 0) as H.
  rewrite Hw, default_value_leaf_count in H. lia.
Qed.

(** The references [jit_var_vcall] fills the output buffer with. *)
Lemma fill_slots_known (mk : nat → list Z) n : ∀ a out w,
  (∀ i r, i < a → out !! i = Some r → known (js_vars (backend w)) r) →
  returns (for_each (seq a n)
             (λ slot out, r <- jit_var_new (mk slot) ;; ret (<[slot := r]> out))
             out) w
    (λ out' w', grows w w' ∧ length out' = length out ∧
                ∀ i r, i < a + n → out' !! i = Some r →
                       known (js_vars (backend w')) r).
Proof.
  induction n as [|n IH]; intros a out w Hout; simpl.
  - apply returns_ret. split; [apply grows_refl|]. split; [done|].
    intros i r Hi. apply Hout. lia.
  - eapply (returns_bind _ _ _
              (λ out1 w1, ∃ r, out1 = <[a := r]> out ∧ grows w w1 ∧
                               known (js_vars (backend w1)) r)).
    { eapply returns_bind; [apply jit_var_new_returns|].
      intros r w1 (Hg & Hk & _). apply returns_ret. by exists r. }
    intros out1 w1 (r & -> & Hg1 & Hk1).
    eapply returns_mono; [apply IH|].
    + intros i r' Hi Hl. apply list_lookup_insert_Some in Hl as [(_ & <- & _)|[Hne Hl]].
      * done.
      * eapply known_grows; [done|]. apply (Hout i); [lia | done].
    + intros out' w' (Hg & Hlen & Hk). split; [by eapply grows_trans|].
      split; [by rewrite Hlen, length_insert|].
      intros i r' Hi. apply Hk. lia.
Qed.

Lemma jit_var_vcall_known reg l self n_inst indices_in indices_out_all
    se_count indices_out w :
  returns (jit_var_vcall reg l self n_inst indices_in indices_out_all
             se_count indices_out) w
    (λ out w',
       length out = length indices_out ∧
       Forall (known (js_vars (backend w'))) out).
Proof.
  unfold jit_var_vcall. apply returns_bind_gets.
  apply returns_bind_modify.
  eapply returns_mono; [apply (fill_slots_known _ _ 0); intros; lia|].
  intros out w' (_ & Hlen & Hk). split; [done|].
  apply Forall_lookup. intros i r Hi. apply (Hk i); [|done].
  apply lookup_lt_Some in Hi. simpl. lia.
Qed.

Section Defined.
Variable Backend : JitBackend.
Variable Domain : string.
Variable reg : registry.
Variable Result : shape.
Variable set_mask : nat → nat → mask_arg → value → value.
Variable extract_mask : list value → N.
Variable placeholder : value → value.

Abbreviation record_node := (record_node Domain reg Result).
Abbreviation vcall_jit_record_impl' :=
  (vcall_jit_record_impl Backend Domain reg Result set_mask).
Abbreviation vcall_jit_record' :=
  (vcall_jit_record Backend Domain reg Result set_mask extract_mask placeholder).

(** The node and the result, once the loop is through. *)
Lemma record_node_result name n_inst_actual self mask indices_in st w :
  n_inst_actual ≠ 0 →
  ∃ out w',
    length out = length (ls_indices_out_all st) / n_inst_actual ∧
    Forall (known (js_vars (backend w'))) out ∧
    record_node name n_inst_actual self mask indices_in st w =
    (if is_nullptr_t Result then ret (default_value Result)
     else match write_indices out (default_value Result) 0 with
          | Some (result', _) => ret result'
          | None => undef
          end) w'.
Proof.
  intros Hn. unfold record_node.
  destruct (Nat.eqb_spec n_inst_actual 0) as [|_]; [done|].
  destruct (jit_var_mask_peek_returns w) as (top & w1 & E1 & _).
  rewrite (bind_Ok _ _ _ _ _ E1).
  destruct (mask_and_returns top mask w1) as (m & w2 & E2 & _).
  rewrite (bind_Ok _ _ _ _ _ E2).
  destruct (self_and_returns self m w2) as (self_masked & w3 & E3 & _).
  rewrite (bind_Ok _ _ _ _ _ E3).
  destruct (jit_var_vcall_known reg (CallLabel Domain name) self_masked
              n_inst_actual indices_in (ls_indices_out_all st) (ls_se_count st)
              (replicate (length (ls_indices_out_all st) / n_inst_actual) 0%N) w3)
    as (out & w4 & E4 & Hlen & Hk).
  rewrite (bind_Ok _ _ _ _ _ E4).
  exists out, w4. by rewrite Hlen, length_replicate.
Qed.

Section Callback.
Variable name : string.
Variable func : Func.
Variable args : list value.

Abbreviation record_instance' :=
  (record_instance Backend Domain reg Result set_mask name func args).

(** The loop stays within [se_count] when the table has an entry for
    the call and one for every live id that is still to come. *)
Lemma for_each_record_defined ids : ∀ st w,
  (∀ base a s, (func base a s).1 ≠ Undef) →
  ls_j st + length (live_ids reg ids) ≤ length (ls_se_count st) →
  1 ≤ ls_j st →
  is_Some (ls_se_count st !! 0) →
  (for_each ids record_instance' st w).1 ≠ Undef.
Proof.
  intros st w Hfunc. revert st w.
  induction ids as [|i ids IH]; intros st w Hlen Hj [c0 H0]; [done|].
  rewrite for_each_cons. unfold live_ids in Hlen. rewrite filter_cons in Hlen.
  destruct (decide (jit_registry_get_ptr reg i ≠ 0%N)) as [Hlive|Hnull].
  - rewrite record_instance_live by done. simpl in *.
    unfold handler_outcome. rewrite H0.
    pose proof (Hfunc (jit_registry_get_ptr reg i)
                  (branch_args Result set_mask args)
                  (enter_branch Backend (InstanceLabel Domain name (ls_j st))
                     (backend w))) as Hf.
    destruct (func _ _ _) as [[tmp|e|] s]; [|done..].
    assert (∃ o, (if is_nullptr_t Result then Ok (ls_indices_out_all st)
                  else collect_indices (ls_indices_out_all st) tmp) = o ∧
                 o ≠ Undef) as (o & -> & Ho).
    { destruct (is_nullptr_t Result); [by eexists|].
      destruct (collect_indices_outcome tmp (ls_indices_out_all st))
        as [[l ->]| ->]; by eexists. }
    destruct o as [out|e|]; [|done..].
    destruct (Nat.ltb_spec (ls_j st) (length (ls_se_count st))) as [Hlt|]; [|lia].
    apply IH; simpl.
    + rewrite length_insert. unfold live_ids. lia.
    + lia.
    + rewrite list_lookup_insert_ne by lia. by eexists.
  - apply dec_stable in Hnull. rewrite record_instance_null by done.
    by apply IH; [| |eexists].
Qed.

(** The recorder has no undefined behaviour when [n_inst_actual] is the
    number of live implementations, and not zero. *)
Lemma vcall_jit_record_impl_defined n_inst_max n_inst_actual inst self mask w :
  (∀ base a s, (func base a s).1 ≠ Undef) →
  (is_nullptr_t Result = false → callback_typed func Result) →
  n_inst_actual = count_live reg n_inst_max →
  n_inst_actual ≠ 0 →
  (vcall_jit_record_impl' name n_inst_max n_inst_actual inst func self mask
     args w).1 ≠ Undef.
Proof.
  intros Hfunc Htyped Hcount Hn0.
  destruct (decide (n_inst_actual = 1)) as [H1|H1].
  - rewrite H1.
    destruct (combined_mask_grows self mask w) as (mask2 & w2 & Hpre & _).
    rewrite (fast_path_unfold _ _ _ _ _ _ _ _ _ _ _ _ _ _ _ Hpre).
    set (margs := set_mask_pack set_mask (MaskArray mask2) args).
    pose proof (Hfunc inst margs (backend w2)) as Hf.
    destruct (is_nullptr_t Result) eqn:Hvoid; unfold bind at 1, invoke;
      destruct (func inst margs (backend w2)) as [[r|e|] s] eqn:E; try done.
    destruct (zero_select_typed Result mask2 r
                (World s (invocations w2 ++ [(inst, margs)])))
      as (res & w' & -> & _); [by eapply Htyped | done].
  - rewrite multi_instance_unfold by done.
    destruct (collect_indices_pack_outcome args []) as [[l ->]| ->]; [|done].
    pose proof (for_each_record_defined (seq 1 n_inst_max)
                  (initial_loop_state n_inst_actual w) w Hfunc) as Hdef.
    pose proof (for_each_invariant (output_invariant Result) (λ _ _, True)
                  record_instance' (seq 1 n_inst_max)
                  (λ i st w1, record_instance_output Backend Domain reg Result
                                set_mask name func args i st w1 Htyped)
                  (initial_loop_state n_inst_actual w) w) as Hinv.
    destruct (for_each _ _ _ _) as [[st|e|] w1] eqn:Hloop; simpl in *.
    + destruct Hinv as [_ Hout]; [by split|].
      apply for_each_record_Ok in Hloop as (Hws & Hj & _). simpl in *.
      fold (count_live reg n_inst_max) in Hws. rewrite <-Hcount in Hws.
      assert (length (ls_indices_out_all st) / n_inst_actual = leaf_count Result)
        as Hdiv.
      { rewrite Hout, Hj, Hws.
        replace (S n_inst_actual - 1) with n_inst_actual by lia.
        rewrite Nat.mul_comm. by apply Nat.div_mul. }
      destruct (record_node_result name n_inst_actual self mask l st w1 Hn0)
        as (out & w2 & Hlen & _ & ->).
      destruct (is_nullptr_t Result); [done|].
      pose proof (write_indices_default_defined Result out) as Hw.
      destruct (write_indices out (default_value Result) 0) as [[res ?]|]; [done|].
      destruct Hw; [lia | done].
    + done.
    + exfalso. apply Hdef; [|lia| |done].
      * rewrite length_insert, length_replicate.
        fold (count_live reg n_inst_max). lia.
      * rewrite list_lookup_insert_eq; [by eexists|].
        rewrite length_replicate. lia.
Qed.

(** The value the recorder returns. *)
Lemma vcall_jit_record_impl_typed n_inst_max n_inst_actual inst self mask w res w' :
  (is_nullptr_t Result = false → callback_typed func Result) →
  vcall_jit_record_impl' name n_inst_max n_inst_actual inst func self mask
    args w = (Ok res, w') →
  has_shape res Result = true ∧
  Forall (known (js_vars (backend w'))) (leaves res).
Proof.
  intros Htyped Hrun.
  destruct (decide (n_inst_actual = 1)) as [H1|H1].
  - rewrite H1 in Hrun.
    destruct (combined_mask_grows self mask w) as (mask2 & w2 & Hpre & _).
    rewrite (fast_path_unfold _ _ _ _ _ _ _ _ _ _ _ _ _ _ _ Hpre) in Hrun.
    set (margs := set_mask_pack set_mask (MaskArray mask2) args) in Hrun.
    destruct (is_nullptr_t Result) eqn:Hvoid; unfold bind at 1, invoke in Hrun;
      destruct (func inst margs (backend w2)) as [[r|e|] s] eqn:E; try done.
    + injection Hrun as <- <-. by destruct Result.
    + destruct (zero_select_typed Result mask2 r
                  (World s (invocations w2 ++ [(inst, margs)])))
        as (res' & w'' & Hsel & _ & Hshape & Hk); [by eapply Htyped|].
      rewrite Hsel in Hrun. by injection Hrun as <- <-.
  - rewrite multi_instance_unfold in Hrun by done.
    destruct (collect_indices_pack [] args) as [l|e|]; [|done..].
    destruct (for_each _ _ _ _) as [[st|e|] w1]; [|done..].
    destruct (decide (n_inst_actual = 0)) as [->|Hn0]; [done|].
    destruct (record_node_result name n_inst_actual self mask l st w1 Hn0)
      as (out & w2 & _ & Hk & E).
    rewrite E in Hrun. destruct (is_nullptr_t Result) eqn:Hvoid.
    + injection Hrun as <- <-. by destruct Result.
    + destruct (write_indices out (default_value Result) 0) as [[res' o']|] eqn:Hw;
        [|done].
      injection Hrun as <- <-.
      apply write_indices_default in Hw as [Hshape ->].
      split; [done | by apply Forall_take].
Qed.

End Callback.


(** X9. A recorded call has no undefined behaviour of its own: with
    callbacks that have none and that return values of the type [Result],
    every access of the driver and the recorder to [se_count], to the
    output buffer and to the output table is within bounds and the
    division by the number of implementations is by a non-zero number,
    whatever the registry, the selector and the arguments are. *)
Theorem record_call_defined name (func : Func) self args w :
  (∀ base a s, (func base a s).1 ≠ Undef) →
  (is_nullptr_t Result = false → callback_typed func Result) →
  (vcall_jit_record' name func self args w).1 ≠ Undef.
Proof.
  intros Hfunc Htyped. unfold vcall_jit_record. rewrite scan_registry_spec.
  unfold jit_var_size, bind at 1, gets.
  destruct (_ || _) eqn:Hguard.
  - by destruct (zero_returns Result (length (var_data (js_vars (backend w)) self)) w)
      as (z & w' & -> & _).
  - apply orb_false_iff in Hguard as [Hn0 _]. apply Nat.eqb_neq in Hn0.
    by apply vcall_jit_record_impl_defined.
Qed.

(** X10. The value a recorded call returns is a value of the type
    [Result] of which every array refers to a variable of the backend,
    none to the reference 0: collecting its references, as a further
    recorded call does with its arguments, raises no error. *)
Theorem record_call_result_initialized name (func : Func) self args w res w' :
  (is_nullptr_t Result = false → callback_typed func Result) →
  vcall_jit_record' name func self args w = (Ok res, w') →
  has_shape res Result = true ∧
  Forall (known (js_vars (backend w'))) (leaves res) ∧
  ∀ indices, collect_indices indices res = Ok (indices ++ leaves res).
Proof.
  intros Htyped Hrun.
  assert (has_shape res Result = true ∧
          Forall (known (js_vars (backend w'))) (leaves res)) as [Hshape Hk].
  { unfold vcall_jit_record in Hrun. rewrite scan_registry_spec in Hrun.
    unfold jit_var_size, bind at 1, gets in Hrun.
    destruct (_ || _).
    - destruct (zero_returns Result (length (var_data (js_vars (backend w)) self)) w)
        as (z & w1 & Hz & _ & Hshape & Hl).
      rewrite Hz in Hrun. injection Hrun as <- <-. split; [done|].
      eapply Forall_impl; [exact Hl|]. by intros r [? _].
    - by eapply vcall_jit_record_impl_typed. }
  split; [done|]. split; [done|]. intros indices.
  apply collect_indices_initialized. intros H0.
  rewrite Forall_forall in Hk. by destruct (Hk _ H0) as [? _].
Qed.

End Defined.

Lemma record_call_defined_witness :
  (example_record_call registry_raising example_world).1 ≠ Undef.
Proof.
  apply (record_call_defined LLVM "Base" registry_raising example_result
           set_mask_last extract_mask_last id "f" example_func 1%N example_args
           example_world).
  - intros base a s. unfold example_func. by destruct (base =? 102)%N.
  - intros _. exact example_func_typed.
Defined.

Lemma record_call_result_initialized_witness :
  let res := VStruct [VJit 11; VOther; VJit 12] in
  let w' := (example_record_call registry_two example_world).2 in
  has_shape res example_result = true ∧
  Forall (known (js_vars (backend w'))) (leaves res) ∧
  ∀ indices, collect_indices indices res = Ok (indices ++ leaves res).
Proof.
  apply (record_call_result_initialized LLVM "Base" registry_two example_result
           set_mask_last extract_mask_last id "f" example_func 1%N example_args
           example_world (VStruct [VJit 11; VOther; VJit 12])
           (example_record_call registry_two example_world).2).
  - intros _. exact example_func_typed.
  - vm_compute. reflexivity.
Defined.

(** ** The selector handed to the jump table *)

Lemma self_and_data a b w :
  returns (self_and a b) w
    (λ r w', grows w w' ∧ known (js_vars (backend w')) r ∧
             var_data (js_vars (backend w')) r =
             bcast2 (λ x y, if truth y then x else 0%Z)
               (var_data (js_vars (backend w)) a)
               (var_data (js_vars (backend w)) b)).
Proof.
  unfold self_and. do 2 apply returns_bind_gets. apply jit_var_new_returns.
Qed.

Section Selector.
Variable Backend : JitBackend.
Variable Domain : string.
Variable reg : registry.
Variable Result : shape.
Variable set_mask : nat → nat → mask_arg → value → value.
Variable name : string.
Variable func : Func.
Variable args : list value.

Abbreviation record_instance' :=
  (record_instance Backend Domain reg Result set_mask name func args).
Abbreviation record_node := (record_node Domain reg Result name).
Abbreviation vcall_jit_record_impl' :=
  (vcall_jit_record_impl Backend Domain reg Result set_mask name).

(** With callbacks that only add variables, so does an iteration of the
    loop. *)
Lemma record_instance_vars w i st w1 :
  (∀ base a s, js_vars s `prefix_of` js_vars (func base a s).2) →
  js_vars (backend w) `prefix_of` js_vars (backend w1) →
  match record_instance' i st w1 with
  | (Ok st', w') => js_vars (backend w) `prefix_of` js_vars (backend w')
  | _ => True
  end.
Proof.
  intros Hext Hpre.
  destruct (decide (jit_registry_get_ptr reg i ≠ 0%N)) as [Hlive|Hnull];
    [|apply dec_stable in Hnull; by rewrite record_instance_null].
  rewrite record_instance_live by done. simpl.
  pose proof (Hext (jit_registry_get_ptr reg i) (branch_args Result set_mask args)
                (enter_branch Backend (InstanceLabel Domain name (ls_j st))
                   (backend w1))) as Hf.
  destruct (func _ _ _) as [[tmp|e|] s]; simpl in *;
    [|unfold handler_outcome; by destruct (_ !! 0)|done].
  destruct (if is_nullptr_t Result then _ else _) as [out|e|];
    [|unfold handler_outcome; by destruct (_ !! 0)|done].
  destruct (_ <? _); [|done]. simpl.
  assert (js_vars (leave_branch Backend (js_postpone (backend w1)) s) = js_vars s)
    as -> by (unfold leave_branch, pop_mask; by destruct Backend).
  etrans; [exact Hpre|]. etrans; [|exact Hf].
  unfold enter_branch. destruct Backend; simpl; [done|]. by apply prefix_app_r.
Qed.

(** The selector of the node is null wherever the active mask is
    false. *)
Lemma record_node_selector n_inst_actual self mask indices_in st w :
  n_inst_actual ≠ 0 →
  known (js_vars (backend w)) mask →
  ∃ o w' node,
    record_node n_inst_actual self mask indices_in st w = (o, w') ∧
    js_vcalls (backend w') = js_vcalls (backend w) ++ [node] ∧
    known (js_vars (backend w')) (vc_self node) ∧
    ∀ i, lane (var_data (js_vars (backend w)) mask) i = 0%Z →
         lane (var_data (js_vars (backend w')) (vc_self node)) i = 0%Z.
Proof.
  intros Hn Hmask. unfold record_node.
  destruct (Nat.eqb_spec n_inst_actual 0) as [|_]; [done|].
  destruct (jit_var_mask_peek_returns w) as (top & w1 & E1 & Hg1).
  rewrite (bind_Ok _ _ _ _ _ E1).
  destruct (mask_and_returns top mask w1) as (m & w2 & E2 & Hg2 & Hkm & Hdm).
  rewrite (bind_Ok _ _ _ _ _ E2).
  destruct (self_and_data self m w2) as (self_masked & w3 & E3 & Hg3 & Hks & Hds).
  rewrite (bind_Ok _ _ _ _ _ E3).
  destruct (jit_var_vcall_returns reg (CallLabel Domain name) self_masked
              n_inst_actual indices_in (ls_indices_out_all st) (ls_se_count st)
              (replicate (length (ls_indices_out_all st) / n_inst_actual) 0%N) w3)
    as (out & w4 & E4 & Hg4 & _).
  rewrite (bind_Ok _ _ _ _ _ E4).
  assert (∃ o, (if is_nullptr_t Result then ret (default_value Result)
                else match write_indices out (default_value Result) 0 with
                     | Some (result', _) => ret result'
                     | None => undef
                     end) w4 = (o, w4)) as (o & ->).
  { destruct (is_nullptr_t Result); [by eexists|].
    destruct (write_indices _ _ _) as [[? ?]|]; by eexists. }
  eexists o, w4, _. split; [done|].
  pose proof (grows_trans _ _ _ Hg1 (grows_trans _ _ _ Hg2 Hg3)) as Hg.
  split.
  { rewrite (grows_vcalls _ _ Hg4). simpl. by rewrite (grows_vcalls _ _ Hg). }
  simpl.
  destruct (grows_known _ _ _ Hg4 Hks) as [Hks4 Hds4]. split; [done|].
  intros i Hi. rewrite Hds4. simpl. rewrite Hds.
  apply lane_bcast2_zero.
  destruct (grows_known _ _ _ Hg1 Hmask) as [_ Hd1].
  rewrite Hdm, Hd1.
  rewrite (lane_bcast2_zero _ _ _ i); [done|].
  rewrite Hi. simpl. by rewrite andb_false_r.
Qed.

(** X11. When a multi-instance recording returns, the selector of the
    jump-table node it created is null in every lane in which the active
    mask of the call is false: such a lane is routed to no
    implementation.  The callbacks are taken to create variables only,
    never to remove one. *)
Theorem masked_lanes_select_nothing n_inst_max n_inst_actual inst self mask
    w res w' :
  n_inst_actual ≠ 1 →
  (∀ base a s, js_vars s `prefix_of` js_vars (func base a s).2) →
  known (js_vars (backend w)) mask →
  vcall_jit_record_impl' n_inst_max n_inst_actual inst func self mask args w
    = (Ok res, w') →
  ∃ node,
    last (js_vcalls (backend w')) = Some node ∧
    known (js_vars (backend w')) (vc_self node) ∧
    ∀ i, lane (var_data (js_vars (backend w)) mask) i = 0%Z →
         lane (var_data (js_vars (backend w')) (vc_self node)) i = 0%Z.
Proof.
  intros Hn Hext Hmask Hrun. rewrite multi_instance_unfold in Hrun by done.
  destruct (collect_indices_pack [] args) as [indices_in|e|]; [|done..].
  pose proof (for_each_invariant
                (λ _ w1, js_vars (backend w) `prefix_of` js_vars (backend w1))
                (λ _ _, True) record_instance' (seq 1 n_inst_max)
                (λ i s w1, record_instance_vars w i s w1 Hext)
                (initial_loop_state n_inst_actual w) w) as HI.
  destruct (for_each _ _ _ _) as [[st|e|] w1]; [|done..].
  specialize (HI (reflexivity _)).
  destruct (decide (n_inst_actual = 0)) as [->|Hn0]; [done|].
  destruct (record_node_selector n_inst_actual self mask indices_in st w1 Hn0)
    as (o & w2 & node & E & Hv & Hk & Hz); [by eapply known_prefix|].
  rewrite E in Hrun. injection Hrun as -> <-.
  exists node. split; [by rewrite Hv, last_snoc|]. split; [done|].
  intros i Hi. apply Hz. by rewrite (var_data_prefix _ _ _ HI Hmask).
Qed.

End Selector.

Lemma masked_lanes_select_nothing_witness :
  ∃ node,
    last (js_vcalls (backend (example_impl registry_two example_result 2
                                example_args).2)) = Some node ∧
    lane (var_data (js_vars (backend (example_impl registry_two example_result 2
                                        example_args).2)) (vc_self node)) 1 = 0%Z.
Proof.
  destruct (masked_lanes_select_nothing LLVM "Base" registry_two example_result
              set_mask_last "f" example_func example_args 4 2 104%N 1%N 2%N
              example_world (VStruct [VJit 11; VOther; VJit 12])
              (example_impl registry_two example_result 2 example_args).2)
    as (node & Hlast & _ & Hz).
  - lia.
  - intros base a s. unfold example_func.
    destruct (base =? 102)%N; simpl; [done | by apply prefix_app_r].
  - split; [done | simpl; lia].
  - vm_compute. reflexivity.
  - exists node. split; [exact Hlast|]. by apply Hz.
Defined.

(** ** Scheduling and evaluation *)

Section EvalProperties.
Variable handle : Type.
Variable state : Type.
Variable traverse : string → handle → list handle.
Variable index : handle → option N.
Variable jit_var_schedule : N → state → Z * state.
Variable jit_eval : state → state.

Abbreviation ScheduleCallback_call :=
  (ScheduleCallback_call handle state index jit_var_schedule).
Abbreviation schedule := (schedule handle state traverse index jit_var_schedule).
Abbreviation eval := (eval handle state traverse index jit_var_schedule jit_eval).
Abbreviation scheduled_indices := (scheduled_indices handle traverse index).
Abbreviation run_schedule := (run_schedule state jit_var_schedule).

(** The traversal with the callback, from any value of [result]. *)
Lemma fold_ScheduleCallback hs : ∀ b st,
  fold_left (λ c h', ScheduleCallback_call h' c) hs ({| result := b |}, st) =
  let (rs, st') := run_schedule (omap index hs) st in
  ({| result := b || existsb (λ r, negb (r =? 0)%Z) rs |}, st').
Proof.
  induction hs as [|h hs IH]; intros b st; simpl.
  - by rewrite orb_false_r.
  - destruct (index h) as [i|]; simpl; [|apply IH].
    destruct (jit_var_schedule i st) as [r st1]. rewrite IH.
    change (list_omap handle N index hs) with (omap index hs).
    destruct (run_schedule (omap index hs) st1) as [rs st2]. simpl.
    by rewrite orb_assoc.
Qed.

(** X12. [schedule] calls the backend for every JIT array that the
    traversal meets, once each and in the order of the traversal, also
    after a call has reported work; objects of other types are passed
    over.  It returns whether at least one of the calls returned a
    non-zero value. *)
Theorem schedule_visits_every_array (h : handle) (st : state) :
  schedule h st =
  let (rs, st') := run_schedule (scheduled_indices h) st in
  (existsb (λ r, negb (r =? 0)%Z) rs, st').
Proof.
  unfold schedule, scheduled_indices. rewrite fold_ScheduleCallback.
  by destruct (run_schedule _ st).
Qed.

(** X13. [eval] runs the evaluation of the backend once, after every
    array was scheduled, if a call of the scheduling returned a non-zero
    value, and not at all otherwise.  For an object without JIT array it
    leaves the backend as it is. *)
Theorem eval_only_after_scheduling (h : handle) (st : state) :
  eval h st =
    (let (rs, st') := run_schedule (scheduled_indices h) st in
     if existsb (λ r, negb (r =? 0)%Z) rs then jit_eval st' else st') ∧
  (Forall (λ h', index h' = None) (traverse "drjit.schedule" h) →
   eval h st = st).
Proof.
  assert (eval h st =
          (let (rs, st') := run_schedule (scheduled_indices h) st in
           if existsb (λ r, negb (r =? 0)%Z) rs then jit_eval st' else st')) as Heval.
  { unfold eval, schedule, scheduled_indices.
    rewrite fold_ScheduleCallback.
    by destruct (run_schedule _ st). }
  split; [done|]. intros Hnone. rewrite Heval.
  unfold scheduled_indices.
  replace (omap index (traverse "drjit.schedule" h)) with (@nil N); [done|].
  induction Hnone as [|h' hs Hh' _ IH]; [done|]. simpl. by rewrite Hh'.
Qed.

End EvalProperties.

Lemma eval_only_after_scheduling_witness :
  eval value (list N)
    (λ _ v, match v with VStruct fs => fs | _ => [v] end)
    (λ v, match v with VJit i => Some i | _ => None end)
    (λ i st, (1%Z, st ++ [i])) (λ _, [])
    (VStruct [VOther; VNullptr]) [3%N]
  = [3%N].
Proof.
  apply (proj2 (eval_only_after_scheduling value (list N)
                  (λ _ v, match v with VStruct fs => fs | _ => [v] end)
                  (λ v, match v with VJit i => Some i | _ => None end)
                  (λ i st, (1%Z, st ++ [i])) (λ _, [])
                  (VStruct [VOther; VNullptr]) [3%N])).
  simpl. by repeat constructor.
Defined.

(** ** The driver and the live implementations *)

Section Calls.
Variable Backend : JitBackend.
Variable Domain : string.
Variable reg : registry.
Variable Result : shape.
Variable set_mask : nat → nat → mask_arg → value → value.
Variable extract_mask : list value → N.
Variable placeholder : value → value.

Abbreviation vcall_jit_record' :=
  (vcall_jit_record Backend Domain reg Result set_mask extract_mask placeholder).

(** X14. A recorded call that returns has invoked the callback once for
    every live implementation of the registry, in the order of the ids
    and for nothing else; for a selector without lanes it has invoked
    nothing. *)
Theorem record_call_invokes_each_live_once name (func : Func) self args w res w' :
  vcall_jit_record' name func self args w = (Ok res, w') →
  map fst (invocations w') =
  map fst (invocations w) ++
  (if decide (var_data (js_vars (backend w)) self = []) then []
   else live_ptrs reg (jit_registry_get_max reg)).
Proof.
  intros Hrun. unfold vcall_jit_record in Hrun.
  rewrite scan_registry_spec in Hrun.
  unfold jit_var_size, bind at 1, gets in Hrun.
  set (n := count_live reg (jit_registry_get_max reg)) in Hrun.
  set (size := length (var_data (js_vars (backend w)) self)) in Hrun.
  assert (∀ z w1, zero Result size w = (Ok z, w1) →
                  invocations w1 = invocations w) as Hzero.
  { intros z w1 Hz.
    destruct (zero_returns Result size w) as (z' & w1' & Hz' & Hg & _).
    rewrite Hz in Hz'. injection Hz' as <- <-. apply Hg. }
  destruct (decide (var_data (js_vars (backend w)) self = [])) as [Hs|Hs].
  - replace ((n =? 0) || (size =? 0)) with true in Hrun.
    + by rewrite (Hzero _ _ Hrun), app_nil_r.
    + subst size. rewrite Hs. by rewrite orb_true_r.
  - assert ((size =? 0) = false) as Hsize.
    { apply Nat.eqb_neq. subst size. by destruct (var_data _ self). }
    rewrite Hsize, orb_false_r in Hrun.
    destruct (Nat.eqb_spec n 0) as [Hn0|Hn0].
    + rewrite (Hzero _ _ Hrun). unfold live_ptrs.
      subst n. unfold count_live in Hn0.
      apply nil_length_inv in Hn0. rewrite Hn0. simpl. by rewrite app_nil_r.
    + destruct (decide (n = 1)) as [Hn1|Hn1].
      * rewrite Hn1 in Hrun.
        destruct (fast_path_invocations Backend Domain reg Result set_mask name
                    (jit_registry_get_max reg)
                    (default 0%N (last (live_ptrs reg (jit_registry_get_max reg))))
                    func self (extract_mask args) (map placeholder args) w)
          as (mask2 & Hinv).
        rewrite Hrun in Hinv. simpl in Hinv. rewrite Hinv, map_app. simpl.
        f_equal. subst n. unfold count_live in Hn1. unfold live_ptrs.
        destruct (live_ids reg (seq 1 (jit_registry_get_max reg))) as [|i [|? ?]];
          done.
      * rewrite (multi_instance_invocations _ _ _ _ _ _ _ _ _ _ _ _ _ _ _ _ Hn1 Hrun).
        rewrite map_app, map_map. simpl. by rewrite map_id.
Qed.

End Calls.

Lemma record_call_invokes_each_live_once_witness :
  map fst (invocations (example_record_call registry_two example_world).2) =
  [101; 104]%N.
Proof.
  apply (record_call_invokes_each_live_once LLVM "Base" registry_two
           example_result set_mask_last extract_mask_last id "f" example_func
           1%N example_args example_world (VStruct [VJit 11; VOther; VJit 12])
           (example_record_call registry_two example_world).2).
  vm_compute. reflexivity.
Defined.

(** ** The scope a callback runs in *)

Section Isolation.
Variable Backend : JitBackend.
Variable Domain : string.
Variable reg : registry.
Variable Result : shape.
Variable set_mask : nat → nat → mask_arg → value → value.
Variable name : string.
Variable args : list value.

Abbreviation record_instance' func :=
  (record_instance Backend Domain reg Result set_mask name func args).
Abbreviation vcall_jit_record_impl' :=
  (vcall_jit_record_impl Backend Domain reg Result set_mask name).

(** The backend a branch hands to its callback. *)
Lemma enter_branch_scope j s :
  let s_in := enter_branch Backend (InstanceLabel Domain name j) s in
  js_postpone s_in = 1%Z ∧
  head (js_prefix s_in) = Some (InstanceLabel Domain name j) ∧
  (Backend = LLVM →
   ∃ m, head (js_masks s_in) = Some m ∧ var_data (js_vars s_in) m = [1%Z]).
Proof.
  unfold enter_branch. destruct Backend; simpl; (split; [done|]); (split; [done|]).
  - done.
  - intros _. eexists. split; [done|]. apply var_data_new.
Qed.

(** X15. The multi-instance recorder invokes a callback only inside the
    scope of a branch: with side effects postponed (the flag is 1), the
    label of an instance on top of the prefix stack and, on LLVM, a
    one-lane all-true mask on top of the mask stack.  Two callbacks that
    agree on such states of the backend cannot be told apart by the
    recorder: outcome and final state are the same. *)
Theorem callbacks_run_in_branch_scope (func func' : Func)
    n_inst_max n_inst_actual inst self mask w :
  n_inst_actual ≠ 1 →
  (∀ base a s j,
     js_postpone s = 1%Z →
     head (js_prefix s) = Some (InstanceLabel Domain name j) →
     (Backend = LLVM →
      ∃ m, head (js_masks s) = Some m ∧ var_data (js_vars s) m = [1%Z]) →
     func base a s = func' base a s) →
  vcall_jit_record_impl' n_inst_max n_inst_actual inst func self mask args w =
  vcall_jit_record_impl' n_inst_max n_inst_actual inst func' self mask args w.
Proof.
  intros Hn Hagree.
  assert (∀ i st w1, record_instance' func i st w1 = record_instance' func' i st w1)
    as Hbody.
  { intros i st w1.
    destruct (decide (jit_registry_get_ptr reg i ≠ 0%N)) as [Hlive|Hnull];
      [|apply dec_stable in Hnull; by rewrite !record_instance_null].
    rewrite !record_instance_live by done. simpl.
    destruct (enter_branch_scope (ls_j st) (backend w1)) as (Hp & Hl & Hm).
    by rewrite (Hagree _ _ _ _ Hp Hl Hm). }
  assert (∀ ids st w1,
            for_each ids (record_instance' func) st w1 =
            for_each ids (record_instance' func') st w1) as Hloop.
  { induction ids as [|i ids IH]; intros st w1; [done|].
    rewrite !for_each_cons, Hbody.
    by destruct (record_instance' func' i st w1) as [[st'|e|] w2]. }
  rewrite !multi_instance_unfold by done. by rewrite Hloop.
Qed.

End Isolation.

Lemma callbacks_run_in_branch_scope_witness :
  example_impl registry_raising example_result 3 example_args =
  vcall_jit_record_impl LLVM "Base" registry_raising example_result
    set_mask_last "f" 4 3 104
    (λ base a s,
       if (js_postpone s =? 1)%Z then example_func base a s
       else (Throw (Exception 0), s))
    1 2 example_args example_world.
Proof.
  apply (callbacks_run_in_branch_scope LLVM "Base" registry_raising
           example_result set_mask_last "f" example_args example_func
           (λ base a s,
              if (js_postpone s =? 1)%Z then example_func base a s
              else (Throw (Exception 0), s))
           4 3 104%N 1%N 2%N example_world).
  - lia.
  - intros base a s j Hp _ _. by rewrite Hp.
Defined.
